(** * jellyfin-web: the PDF player plugin and the emby-collapse element

    A shallow embedding of [src/plugins/pdfPlayer/plugin.js] and
    [src/elements/emby-collapse/emby-collapse.js], and the properties of
    the page cache window, the navigation methods, the applicability
    predicates and the collapse element's attachment.

    Conventions of the embedding.
    - Numbers.  The player computes with page numbers and page indices
      only.  They are embedded as [Z]; this is exact for the integers that
      a JavaScript Number holds without rounding, up to
      [JS.MAX_SAFE_INTEGER].
    - Strings are embedded as [string] (one character per code unit below
      128).  An operation whose result outside ASCII depends on the tables
      of Unicode ([JS.toLowerCase]) is defined on ASCII strings only.
    - A method that mutates [this] or the page is a computation in the
      monad [M]: it takes the state and completes normally with a value
      and a state, or abruptly (an uncaught [TypeError]) with the state
      reached when the error was raised.
    - Promise continuations are kept as pending tasks in the state; an
      event settles one of them and runs its continuation to completion,
      as the browser's event loop does. *)

From Stdlib Require Import ZArith String Ascii Decimal DecimalString DecimalZ DecimalPos Lia.
From stdpp Require Import base gmap strings list fin_maps.

Local Open Scope Z_scope.

(* ================================================================== *)
(** * Built-in string and number operations used by the sources       *)
(* ================================================================== *)

Module JS.

(** [Number.MAX_SAFE_INTEGER]. *)
Definition MAX_SAFE_INTEGER : Z := 2 ^ 53 - 1.

(** [String(n)] for an integer [n]: the decimal numeral, with a leading
    minus sign for a negative one. *)
Definition Number_toString (n : Z) : string :=
  NilEmpty.string_of_int (Z.to_int n).

(** White space skipped by [parseInt]: TAB, LF, VT, FF, CR and SP. *)
Definition isWhiteSpace (c : ascii) : bool :=
  let n := nat_of_ascii c in
  ((9 <=? n) && (n <=? 13) || (n =? 32))%nat.

Fixpoint trimStart (s : string) : string :=
  match s with
  | String c s' => if isWhiteSpace c then trimStart s' else s
  | EmptyString => s
  end.

(** The value of a character as a digit in a radix up to 36. *)
Definition digitValue (c : ascii) : option Z :=
  let n := Z.of_nat (nat_of_ascii c) in
  if (48 <=? n) && (n <=? 57) then Some (n - 48)
  else if (97 <=? n) && (n <=? 122) then Some (n - 87)
  else if (65 <=? n) && (n <=? 90) then Some (n - 55)
  else None.

(** The digits of the longest prefix of [s] that are digits in [radix],
    accumulated from the left. *)
Fixpoint parseDigits (radix acc : Z) (s : string) : Z :=
  match s with
  | String c s' =>
      match digitValue c with
      | Some d => if d <? radix then parseDigits radix (radix * acc + d) s' else acc
      | None => acc
      end
  | EmptyString => acc
  end.

(** An optional sign in front of the digits. *)
Definition stripSign (s : string) : Z * string :=
  match s with
  | String c r =>
      if Ascii.eqb c "-" then (-1, r)
      else if Ascii.eqb c "+" then (1, r)
      else (1, s)
  | EmptyString => (1, s)
  end.

(** An optional [0x] or [0X] in front of the digits selects radix 16. *)
Definition stripPrefix (s : string) : Z * string :=
  match s with
  | String c0 (String c1 r) =>
      if Ascii.eqb c0 "0" && (Ascii.eqb c1 "x" || Ascii.eqb c1 "X")
      then (16, r) else (10, s)
  | _ => (10, s)
  end.

(** [parseInt(s)] without a radix argument: leading white space, an
    optional sign, an optional [0x] prefix, then the longest prefix of
    digits; [None] is [NaN]. *)
Definition parseInt (s : string) : option Z :=
  let '(sign, s2) := stripSign (trimStart s) in
  let '(radix, s3) := stripPrefix s2 in
  match s3 with
  | String c _ =>
      match digitValue c with
      | Some d => if d <? radix then Some (sign * parseDigits radix 0 s3) else None
      | None => None
      end
  | EmptyString => None
  end.

(** [s.substr(start)] for a start index that is not negative. *)
Fixpoint substr (start : nat) (s : string) : string :=
  match start, s with
  | O, _ => s
  | S k, String _ s' => substr k s'
  | S _, EmptyString => EmptyString
  end.

(** [s.endsWith(t)]. *)
Definition endsWith (s t : string) : bool :=
  (String.length t <=? String.length s)%nat
  && String.eqb (substr (String.length s - String.length t) s) t.

(** A character of ASCII: a code unit below 128. *)
Definition isASCIIChar (c : ascii) : bool := (nat_of_ascii c <? 128)%nat.

(** A string of ASCII characters only. *)
Definition isASCII (s : string) : bool :=
  forallb isASCIIChar (list_ascii_of_string s).

(** The lower-case form of a character of ASCII: the letters A to Z are
    lowered, every other character is itself. *)
Definition toLowerCaseChar (c : ascii) : ascii :=
  let n := nat_of_ascii c in
  if ((65 <=? n) && (n <=? 90))%nat then ascii_of_nat (n + 32) else c.

(** [s.toLowerCase()] on a string of ASCII characters.  On other strings
    the result depends on the case mappings of Unicode, which also lower
    letters outside ASCII (the Kelvin sign U+212A becomes k); these are
    not modelled, and the result is [None]. *)
Fixpoint toLowerCase (s : string) : option string :=
  match s with
  | String c s' =>
      if isASCIIChar c
      then String (toLowerCaseChar c) <$> toLowerCase s'
      else None
  | EmptyString => Some EmptyString
  end.

(** [a.includes(x)] on an array of strings. *)
Definition includes (a : list string) (x : string) : bool :=
  bool_decide (x ∈ a).

End JS.

(* ================================================================== *)
(** * Computations on a mutable state that may throw                  *)
(* ================================================================== *)

Module Eff.

(** How running a method ends: normally, with a value and the new state,
    or with an uncaught exception and the state reached when it was
    raised. *)
Inductive Completion (S A : Type) : Type :=
  | Normal (a : A) (st : S)
  | Throw (st : S).
Arguments Normal {S A} a st.
Arguments Throw {S A} st.

Definition M (S A : Type) : Type := S → Completion S A.

#[export] Instance M_ret {S} : MRet (M S) := λ A a st, Normal a st.

#[export] Instance M_bind {S} : MBind (M S) := λ A B f m st,
  match m st with
  | Normal a st' => f a st'
  | Throw st' => Throw st'
  end.

Definition gets {S A} (f : S → A) : M S A := λ st, Normal (f st) st.

Definition modify {S} (f : S → S) : M S unit := λ st, Normal () (f st).

Definition throw {S A} : M S A := λ st, Throw st.

(** The state a computation leaves behind, however it completes. *)
Definition after {S A} (c : Completion S A) : S :=
  match c with
  | Normal _ st => st
  | Throw st => st
  end.

(** [for (let x of l) body]. *)
Fixpoint forEach {S A} (l : list A) (body : A → M S unit) : M S unit :=
  match l with
  | [] => mret ()
  | x :: l' => body x ;; forEach l' body
  end.

End Eff.

(* ================================================================== *)
(** * The PDF player: [src/plugins/pdfPlayer/plugin.js]               *)
(* ================================================================== *)

Module PdfPlayer.
Import JS Eff.

(** ** Collaborators and data *)

(** A document as pdf.js hands it over: [getPage(k)] is fulfilled for
    [1 <= k <= numPages] and rejected for any other argument. *)
Record Document := { numPages : Z }.

Record Item := {
  Id : string;
  ServerId : string;
  Path : option string;
  MediaType : option string
}.

(** The argument of [play].  [items] is [options.items]. *)
Record Options := { items : list Item; startPositionTicks : Z }.

(** The identity of a canvas element.  Canvas elements are shared between
    the cache, the dialog and the render continuations, so they live in a
    store ([canvases]) and are referred to by identity. *)
Abbreviation canvas := nat (only parsing).

(** What a canvas element holds: nothing yet; the dimensions of the
    fitted viewport of a page, with the drawing under way; the page. *)
Inductive Surface :=
  | Blank
  | Sized (page : Z)
  | Painted (page : Z).

(** The promise returned by [play]. *)
Inductive Outcome := Pending | Resolved | Rejected.

(** The asynchronous operations whose continuation has not run yet. *)
Inductive Task :=
  | ImportPdfjs (outcome : nat) (options : Options)
  | GetDocument (outcome : nat) (options : Options)
  | GetPage (doc : Document) (cv : canvas) (number : option Z)
  | RenderTask (cv : canvas) (number : Z).

(** The listeners the player has bound: [keyup] and [touchstart] on the
    document, [close] on the dialog and [click] on its exit button. *)
Record Listeners := {
  keyup : bool;
  touchstart : bool;
  close : bool;
  exitClick : bool
}.

(** The fields of the player instance, then the part of the page and of
    the collaborators that the player reads and writes.
    [mediaElement] tells whether [this.mediaElement] holds the dialog;
    [dialog] whether the element with id [pdfPlayer] is in the document;
    [domCanvas] is the element with id [canvas] of the document;
    [timeupdates] counts the [timeupdate] events triggered.  The field
    [streamInfo], which the player writes and never reads, is left out. *)
Record State := {
  progress : Z;
  loaded : bool;
  cancellationToken : bool;
  pages : gmap string canvas;
  book : option Document;
  mediaElement : bool;
  item : option Item;
  canvases : gmap canvas Surface;
  domCanvas : option canvas;
  dialog : bool;
  listeners : Listeners;
  loadingShown : bool;
  timeupdates : nat;
  tasks : list Task;
  promises : list Outcome
}.

(** Assignments to one field. *)

Definition set_progress (f : Z → Z) (st : State) : State :=
  Build_State (f (progress st)) (loaded st) (cancellationToken st)
    (pages st) (book st) (mediaElement st) (item st) (canvases st)
    (domCanvas st) (dialog st) (listeners st) (loadingShown st)
    (timeupdates st) (tasks st) (promises st).

Definition set_loaded (f : bool → bool) (st : State) : State :=
  Build_State (progress st) (f (loaded st)) (cancellationToken st)
    (pages st) (book st) (mediaElement st) (item st) (canvases st)
    (domCanvas st) (dialog st) (listeners st) (loadingShown st)
    (timeupdates st) (tasks st) (promises st).

Definition set_cancellationToken (f : bool → bool) (st : State) : State :=
  Build_State (progress st) (loaded st) (f (cancellationToken st))
    (pages st) (book st) (mediaElement st) (item st) (canvases st)
    (domCanvas st) (dialog st) (listeners st) (loadingShown st)
    (timeupdates st) (tasks st) (promises st).

Definition set_pages (f : gmap string canvas → gmap string canvas) (st : State) : State :=
  Build_State (progress st) (loaded st) (cancellationToken st)
    (f (pages st)) (book st) (mediaElement st) (item st) (canvases st)
    (domCanvas st) (dialog st) (listeners st) (loadingShown st)
    (timeupdates st) (tasks st) (promises st).

Definition set_book (f : option Document → option Document) (st : State) : State :=
  Build_State (progress st) (loaded st) (cancellationToken st) (pages st)
    (f (book st)) (mediaElement st) (item st) (canvases st) (domCanvas st)
    (dialog st) (listeners st) (loadingShown st) (timeupdates st)
    (tasks st) (promises st).

Definition set_mediaElement (f : bool → bool) (st : State) : State :=
  Build_State (progress st) (loaded st) (cancellationToken st) (pages st)
    (book st) (f (mediaElement st)) (item st) (canvases st) (domCanvas st)
    (dialog st) (listeners st) (loadingShown st) (timeupdates st)
    (tasks st) (promises st).

Definition set_item (f : option Item → option Item) (st : State) : State :=
  Build_State (progress st) (loaded st) (cancellationToken st) (pages st)
    (book st) (mediaElement st) (f (item st)) (canvases st) (domCanvas st)
    (dialog st) (listeners st) (loadingShown st) (timeupdates st)
    (tasks st) (promises st).

Definition set_canvases (f : gmap canvas Surface → gmap canvas Surface) (st : State) : State :=
  Build_State (progress st) (loaded st) (cancellationToken st) (pages st)
    (book st) (mediaElement st) (item st) (f (canvases st)) (domCanvas st)
    (dialog st) (listeners st) (loadingShown st) (timeupdates st)
    (tasks st) (promises st).

Definition set_domCanvas (f : option canvas → option canvas) (st : State) : State :=
  Build_State (progress st) (loaded st) (cancellationToken st) (pages st)
    (book st) (mediaElement st) (item st) (canvases st) (f (domCanvas st))
    (dialog st) (listeners st) (loadingShown st) (timeupdates st)
    (tasks st) (promises st).

Definition set_dialog (f : bool → bool) (st : State) : State :=
  Build_State (progress st) (loaded st) (cancellationToken st) (pages st)
    (book st) (mediaElement st) (item st) (canvases st) (domCanvas st)
    (f (dialog st)) (listeners st) (loadingShown st) (timeupdates st)
    (tasks st) (promises st).

Definition set_listeners (f : Listeners → Listeners) (st : State) : State :=
  Build_State (progress st) (loaded st) (cancellationToken st) (pages st)
    (book st) (mediaElement st) (item st) (canvases st) (domCanvas st)
    (dialog st) (f (listeners st)) (loadingShown st) (timeupdates st)
    (tasks st) (promises st).

Definition set_loadingShown (f : bool → bool) (st : State) : State :=
  Build_State (progress st) (loaded st) (cancellationToken st) (pages st)
    (book st) (mediaElement st) (item st) (canvases st) (domCanvas st)
    (dialog st) (listeners st) (f (loadingShown st)) (timeupdates st)
    (tasks st) (promises st).

Definition set_timeupdates (f : nat → nat) (st : State) : State :=
  Build_State (progress st) (loaded st) (cancellationToken st) (pages st)
    (book st) (mediaElement st) (item st) (canvases st) (domCanvas st)
    (dialog st) (listeners st) (loadingShown st) (f (timeupdates st))
    (tasks st) (promises st).

Definition set_tasks (f : list Task → list Task) (st : State) : State :=
  Build_State (progress st) (loaded st) (cancellationToken st) (pages st)
    (book st) (mediaElement st) (item st) (canvases st) (domCanvas st)
    (dialog st) (listeners st) (loadingShown st) (timeupdates st)
    (f (tasks st)) (promises st).

Definition set_promises (f : list Outcome → list Outcome) (st : State) : State :=
  Build_State (progress st) (loaded st) (cancellationToken st) (pages st)
    (book st) (mediaElement st) (item st) (canvases st) (domCanvas st)
    (dialog st) (listeners st) (loadingShown st) (timeupdates st)
    (tasks st) (f (promises st)).


(** ** Computations *)

Abbreviation M := (Eff.M State).

(** [document.createElement('canvas')]. *)
Definition createCanvas : M canvas := λ st,
  let cv := fresh (dom (canvases st)) in
  Normal cv (set_canvases (insert cv Blank) st).

(** Start an asynchronous operation. *)
Definition spawn (t : Task) : M unit := modify (set_tasks (λ ts, ts ++ [t])).

(** [new Promise(...)]: the index of the new promise. *)
Definition newPromise : M nat :=
  pid ← gets (λ st, length (promises st));
  modify (set_promises (λ ps, ps ++ [Pending])) ;;
  mret pid.

(** [resolve()] of the promise [pid]; settling twice has no effect. *)
Definition resolve (pid : nat) : M unit :=
  modify (set_promises (λ ps,
    match ps !! pid with
    | Some Pending => <[pid := Resolved]> ps
    | _ => ps
    end)).

(** ** Methods *)

Definition currentItem (st : State) : option Item := item st.

Definition currentTime (st : State) : Z := progress st.

Definition duration (st : State) : Z :=
  match book st with
  | Some b => numPages b
  | None => 0
  end.

Definition bindMediaElementEvents : M unit :=
  elem ← gets mediaElement;
  if elem : bool
  then modify (set_listeners (λ l, Build_Listeners (keyup l) (touchstart l) true true))
  else throw.

Definition bindEvents : M unit :=
  bindMediaElementEvents ;;
  modify (set_listeners (λ l, Build_Listeners true true (close l) (exitClick l))).

Definition unbindMediaElementEvents : M unit :=
  modify (set_listeners (λ l, Build_Listeners (keyup l) (touchstart l) false false)).

Definition unbindEvents : M unit :=
  elem ← gets mediaElement;
  (if elem : bool then unbindMediaElementEvents else mret ()) ;;
  modify (set_listeners (λ l, Build_Listeners false false (close l) (exitClick l))).

(** [dialogHelper.close(elem)]: the dialog, created with [removeOnClose],
    leaves the document, and the canvas it shows with it. *)
Definition closeDialog : M unit :=
  modify (set_dialog (λ _, false)) ;;
  modify (set_domCanvas (λ _, None)).

Definition stop : M unit :=
  unbindEvents ;;
  elem ← gets mediaElement;
  (if elem : bool
   then closeDialog ;; modify (set_mediaElement (λ _, false))
   else mret ()) ;;
  modify (set_loadingShown (λ _, false)) ;;
  modify (set_cancellationToken (λ _, true)).

Definition onDialogClosed : M unit := stop.

Definition createMediaElement : M unit :=
  elem ← gets mediaElement;
  if elem : bool then mret ()
  else
    found ← gets dialog;
    (if found : bool then mret ()
     else
       cv ← createCanvas;
       modify (set_domCanvas (λ _, Some cv)) ;;
       modify (set_dialog (λ _, true))) ;;
    modify (set_mediaElement (λ _, true)).

Definition replaceCanvas (cv : option canvas) : M unit :=
  old ← gets domCanvas;
  match cv, old with
  | Some c, Some _ => modify (set_domCanvas (λ _, Some c))
  | _, _ => throw
  end.

Definition renderPage (cv : canvas) (number : option Z) : M unit :=
  b ← gets book;
  match b with
  | Some doc => spawn (GetPage doc cv number)
  | None => throw
  end.

(** The continuation of [getPage(number)] in [renderPage]. *)
Definition onPage (cv : canvas) (number : Z) : M unit :=
  modify (set_timeupdates S) ;;
  modify (set_canvases (insert cv (Sized number))) ;;
  spawn (RenderTask cv number).

(** The continuation of [renderTask.promise] in [renderPage]. *)
Definition onRendered : M unit := modify (set_loadingShown (λ _, false)).

Definition prefix : string := "page".

Definition pad : Z := 2.

(** The list [pages] that [loadPage] builds: the requested page, then the
    pages at distance 1 and 2 that pass the two tests. *)
Definition pageList (number duration : Z) : list string :=
  foldl (λ pages i,
           let pages :=
             if number - i >? 0
             then pages ++ [prefix +:+ Number_toString (number - i)]
             else pages in
           if number + i <? duration
           then pages ++ [prefix +:+ Number_toString (number + i)]
           else pages)
        [prefix +:+ Number_toString number] (seqZ 1 pad).

(** The body of the loop that loads the missing pages. *)
Definition loadMissing (page : string) : M unit :=
  cached ← gets (λ st, pages st !! page);
  match cached with
  | Some _ => mret ()
  | None =>
      cv ← createCanvas;
      modify (set_pages (insert page cv)) ;;
      renderPage cv (parseInt (substr 4 page))
  end.

(** The body of the loop that deletes the pages outside the cache area. *)
Definition deleteOutside (pageList : list string) (page : string) : M unit :=
  if includes pageList page then mret ()
  else modify (set_pages (delete page)).

Definition loadPage (number : Z) : M unit :=
  d ← gets duration;
  let pageList := pageList number d in
  forEach pageList loadMissing ;;
  target ← gets (λ st, pages st !! (prefix +:+ Number_toString number));
  replaceCanvas target ;;
  keys ← gets (λ st, elements (dom (pages st)));
  forEach keys (deleteOutside pageList).

Definition next : M unit :=
  p ← gets progress;
  d ← gets duration;
  if p =? d - 1 then mret ()
  else
    loadPage (p + 2) ;;
    modify (set_progress (λ p, p + 1)).

Definition previous : M unit :=
  p ← gets progress;
  if p =? 0 then mret ()
  else
    loadPage p ;;
    modify (set_progress (λ p, p - 1)).

Definition onWindowKeyUp (key : string) : M unit :=
  l ← gets loaded;
  if negb l then mret ()
  else if bool_decide (key ∈ ["l"; "ArrowRight"; "Right"]) then next
  else if bool_decide (key ∈ ["j"; "ArrowLeft"; "Left"]) then previous
  else if bool_decide (key = "Escape") then stop
  else mret ().

(** [touches] is [e.touches]; a touch is given by whether its [clientX] is
    below half the inner width of the window. *)
Definition onTouchStart (touches : option (list bool)) : M unit :=
  l ← gets loaded;
  if negb l then mret ()
  else
    match touches with
    | Some (leftHalf :: _) => if leftHalf : bool then previous else next
    | _ => mret ()
    end.

Definition setCurrentSrc (options : Options) : M nat :=
  match head (items options) with
  | Some it =>
      modify (set_item (λ _, Some it)) ;;
      pid ← newPromise;
      spawn (ImportPdfjs pid options) ;;
      mret pid
  | None =>
      modify (set_item (λ _, None)) ;;
      throw
  end.

(** The continuation of [import('pdfjs')] in [setCurrentSrc]. *)
Definition onPdfjsImported (pid : nat) (options : Options) : M unit :=
  bindEvents ;;
  spawn (GetDocument pid options).

(** The continuation of [downloadTask.promise] in [setCurrentSrc], with
    the quotient [options.startPositionTicks / 10000]. *)
Definition onDocumentLoaded (pid : nat) (percentageTicks : Z)
    (doc : Document) : M unit :=
  cancelled ← gets cancellationToken;
  if cancelled : bool then mret ()
  else
    modify (set_book (λ _, Some doc)) ;;
    modify (set_loaded (λ _, true)) ;;
    (if negb (percentageTicks =? 0)
     then loadPage percentageTicks ;;
          modify (set_progress (λ _, percentageTicks))
     else loadPage 1) ;;
    resolve pid.

Definition play (options : Options) : M nat :=
  modify (set_progress (λ _, 0)) ;;
  modify (set_loaded (λ _, false)) ;;
  modify (set_cancellationToken (λ _, false)) ;;
  modify (set_pages (λ _, ∅)) ;;
  modify (set_loadingShown (λ _, true)) ;;
  createMediaElement ;;
  setCurrentSrc options.

(** [canPlayMediaType]; [None] for a media type with a character outside
    ASCII, where [toLowerCase] is not modelled. *)
Definition canPlayMediaType (mediaType : option string) : option bool :=
  (λ t, String.eqb t "book") <$> toLowerCase (default EmptyString mediaType).

Definition canPlayItem (item : Item) : bool :=
  match Path item with
  | Some path =>
      if negb (String.eqb path EmptyString) && endsWith path "pdf" then true else false
  | None => false
  end.

(** ** The event loop *)

(** What happens to a player: the host calls a method, the user presses a
    key, touches the screen, closes the dialog or clicks its exit button,
    or a pending operation settles. *)
Inductive Event :=
  | CallPlay (options : Options)
  | CallStop
  | CallNext
  | CallPrevious
  | KeyUp (key : string)
  | TouchStart (touches : option (list bool))
  | DialogClosed
  | ExitClicked
  | Fulfilled (i : nat)
  | DocumentFulfilled (i : nat) (doc : Document)
  | Failed (i : nat).

Definition removeTask (i : nat) : State → State := set_tasks (delete i).

(** The quotient [startPositionTicks / 10000] when it is an integer; a
    fractional page number is outside the embedding. *)
Definition percentageTicks (options : Options) : option Z :=
  if startPositionTicks options mod 10000 =? 0
  then Some (startPositionTicks options / 10000)
  else None.

(** pdf.js has drawn the page on the canvas. *)
Definition painted (cv : canvas) (number : Z) : State → State :=
  set_canvases (insert cv (Painted number)).

Definition step (e : Event) (st : State) : option State :=
  match e with
  | CallPlay options => Some (after (play options st))
  | CallStop => Some (after (stop st))
  | CallNext => Some (after (next st))
  | CallPrevious => Some (after (previous st))
  | KeyUp key =>
      Some (if keyup (listeners st) then after (onWindowKeyUp key st) else st)
  | TouchStart touches =>
      Some (if touchstart (listeners st)
            then after (onTouchStart touches st) else st)
  | DialogClosed =>
      let st1 := after (closeDialog st) in
      Some (if close (listeners st)
            then after (onDialogClosed
                          (set_listeners (λ l, Build_Listeners (keyup l)
                             (touchstart l) false (exitClick l)) st1))
            else st1)
  | ExitClicked =>
      Some (if dialog st && exitClick (listeners st)
            then after (onDialogClosed
                          (set_listeners (λ l, Build_Listeners (keyup l)
                             (touchstart l) (close l) false) st))
            else st)
  | Fulfilled i =>
      match tasks st !! i with
      | Some (ImportPdfjs pid options) =>
          Some (after (onPdfjsImported pid options (removeTask i st)))
      | Some (GetPage doc cv (Some k)) =>
          if (1 <=? k) && (k <=? numPages doc)
          then Some (after (onPage cv k (removeTask i st)))
          else Some (removeTask i st)
      | Some (GetPage doc cv None) => Some (removeTask i st)
      | Some (RenderTask cv k) =>
          Some (after (onRendered (painted cv k (removeTask i st))))
      | Some (GetDocument _ _) | None => Some st
      end
  | DocumentFulfilled i doc =>
      match tasks st !! i with
      | Some (GetDocument pid options) =>
          pt ← percentageTicks options;
          Some (after (onDocumentLoaded pid pt doc (removeTask i st)))
      | _ => Some st
      end
  | Failed i => Some (removeTask i st)
  end.

Fixpoint run (evs : list Event) (st : State) : option State :=
  match evs with
  | [] => Some st
  | e :: evs' => st' ← step e st; run evs' st'
  end.

(** The player as its constructor leaves it, on a page without dialog.
    The fields that the constructor leaves undefined have the value that
    [play] gives them first ([progress], [pages]) or read as false
    ([loaded], [cancellationToken]) or as absent. *)
Definition constructed : State := {|
  progress := 0;
  loaded := false;
  cancellationToken := false;
  pages := ∅;
  book := None;
  mediaElement := false;
  item := None;
  canvases := ∅;
  domCanvas := None;
  dialog := false;
  listeners := Build_Listeners false false false false;
  loadingShown := false;
  timeupdates := 0;
  tasks := [];
  promises := []
|}.

(** ** Vocabulary of the statements *)

(** The page number that a task asks pdf.js for, when the task is a page
    request. *)
Definition requestedPage (t : Task) : option (option Z) :=
  match t with
  | GetPage _ _ number => Some number
  | _ => None
  end.

(** What a state that the loop reaches has in common with the state it
    started from: all but the cache, the store of canvases and the tasks. *)
Definition framed (st st' : State) : Prop :=
  st' = set_tasks (λ _, tasks st')
          (set_pages (λ _, pages st')
             (set_canvases (λ _, canvases st') st)).

(** The events other than a call of [play], [next] or [previous] by the
    host: what the user and the pending operations can do to a player,
    and a call of [stop]. *)
Definition passive (e : Event) : bool :=
  match e with
  | CallPlay _ | CallNext | CallPrevious => false
  | _ => true
  end.

(** The events of a reader who turns the pages of a loaded document:
    calls of [next] and [previous], keys other than Escape, touches, and
    the page requests and drawings that settle. *)
Definition turnsPages (e : Event) : bool :=
  match e with
  | CallNext | CallPrevious | TouchStart _ | Fulfilled _ | Failed _ => true
  | KeyUp key => negb (bool_decide (key = "Escape"))
  | _ => false
  end.

(** A page request or a drawing. *)
Definition isRender (t : Task) : bool :=
  match t with
  | GetPage _ _ _ | RenderTask _ _ => true
  | _ => false
  end.

(** The four letters of book, each in upper or lower case. *)
Definition spellsBook (t : string) : Prop :=
  ∃ c1 c2 c3 c4 : ascii,
    t = String c1 (String c2 (String c3 (String c4 EmptyString)))
    ∧ (c1 = "b" ∨ c1 = "B")%char ∧ (c2 = "o" ∨ c2 = "O")%char
    ∧ (c3 = "o" ∨ c3 = "O")%char ∧ (c4 = "k" ∨ c4 = "K")%char.

(** After the words of the specification, a path that ends in a PDF
    extension: its last four characters are a dot and the letters p, d
    and f, each in upper or lower case. *)
Definition endsInPdfExtension (path : string) : bool :=
  match rev (list_ascii_of_string path) with
  | f :: d :: p :: dot :: _ =>
      Ascii.eqb dot "." && Ascii.eqb (toLowerCaseChar p) "p"
      && Ascii.eqb (toLowerCaseChar d) "d" && Ascii.eqb (toLowerCaseChar f) "f"
  | _ => false
  end.

(** After the words of the specification, an item that the predicates may
    accept: its path ends in a PDF extension, or its declared type is
    book, in whatever letter case. *)
Definition pdfOrBook (it : Item) : Prop :=
  (∃ path, Path it = Some path ∧ endsInPdfExtension path = true)
  ∨ (∃ t, MediaType it = Some t ∧ spellsBook t).

(** ** The constant answers of the player *)

Definition volume : Z := 100.

Definition isMuted : bool := false.

Definition paused : bool := false.

Definition seekable : bool := true.

End PdfPlayer.

(* ================================================================== *)
(** * The collapse element: [src/elements/emby-collapse/emby-collapse.js] *)
(* ================================================================== *)

Module EmbyCollapse.
Import JS Eff.

(** ** The element and its descendants *)

(** [classList]: a list of class names without repetition. *)
Definition contains (l : list string) (c : string) : bool :=
  bool_decide (c ∈ l).

Definition add (c : string) (l : list string) : list string :=
  if contains l c then l else l ++ [c].

Definition remove (c : string) (l : list string) : list string :=
  filter (λ x, x ≠ c) l.

(** The descendant with class [collapseContent]: its classes, the
    property [expanded] that the click handler keeps on it (unset counts
    as false) and [style.height]. *)
Record Content := {
  contentClasses : list string;
  expanded : bool;
  height : string
}.

(** A descendant with class [emby-collapsible-button]: the markup it was
    created from, the classes of its descendant with class
    [material-icons] when it has one, and whether [onButtonClick] listens
    to its clicks. *)
Record Button := {
  markup : string;
  icon : option (list string);
  clickListener : bool
}.

(** A timer set by one of the two animations. *)
Inductive Timer := AfterShow | AfterHide.

(** The element, with the attributes and descendants that the script
    reads, and the timers of the window. *)
Record Element := {
  classList : list string;
  title : option string;
  dataExpanded : option string;
  buttons : list Button;
  collapseContent : option Content;
  timers : list Timer
}.

Definition set_classList (f : list string → list string) (e : Element) : Element :=
  Build_Element (f (classList e)) (title e) (dataExpanded e) (buttons e)
    (collapseContent e) (timers e).

Definition set_buttons (f : list Button → list Button) (e : Element) : Element :=
  Build_Element (classList e) (title e) (dataExpanded e) (f (buttons e))
    (collapseContent e) (timers e).

Definition set_collapseContent (f : option Content → option Content) (e : Element) : Element :=
  Build_Element (classList e) (title e) (dataExpanded e) (buttons e)
    (f (collapseContent e)) (timers e).

Definition set_timers (f : list Timer → list Timer) (e : Element) : Element :=
  Build_Element (classList e) (title e) (dataExpanded e) (buttons e)
    (collapseContent e) (f (timers e)).

Definition set_contentClasses (f : list string → list string) (c : Content) : Content :=
  Build_Content (f (contentClasses c)) (expanded c) (height c).

Definition set_expanded (b : bool) (c : Content) : Content :=
  Build_Content (contentClasses c) b (height c).

Definition set_height (h : string) (c : Content) : Content :=
  Build_Content (contentClasses c) (expanded c) h.

Definition set_icon (f : list string → list string) (b : Button) : Button :=
  Build_Button (markup b) (f <$> icon b) (clickListener b).

Abbreviation M := (Eff.M Element).

Section Layout.

(** The height the browser lays the content out with. *)
Variable offsetHeight : Content → Z.

(** An update of the content element found by [querySelector]. *)
Definition onContent (f : Content → Content) : M unit :=
  modify (set_collapseContent (fmap f)).

(** [button.querySelector('.material-icons').classList], updated by [f];
    without such a descendant the read of [classList] throws. *)
Definition onIcon (button : nat) (f : list string → list string) : M unit :=
  b ← gets (λ e, buttons e !! button);
  match b ≫= icon with
  | Some _ => modify (set_buttons (alter (set_icon f) button))
  | None => throw
  end.

Definition setTimeout (t : Timer) : M unit :=
  modify (set_timers (λ ts, ts ++ [t])).

(** The callback of both timers, up to the height that the first one
    resets. *)
Definition onTimeout (t : Timer) : M unit :=
  onContent (λ c,
    if contains (contentClasses c) "expanded"
    then set_contentClasses (remove "hide") c
    else set_contentClasses (add "hide") c) ;;
  match t with
  | AfterShow => onContent (set_height "auto")
  | AfterHide => mret ()
  end.

Definition slideDownToShow (button : nat) : M unit :=
  onContent (set_contentClasses (remove "hide")) ;;
  onContent (set_contentClasses (add "expanded")) ;;
  onContent (set_height "auto") ;;
  onContent (λ c,
    let height := Number_toString (offsetHeight c) +:+ "px" in
    let c := set_height "0" c in
    let newHeight := offsetHeight c in
    set_height height c) ;;
  setTimeout AfterShow ;;
  onIcon button (add "emby-collapse-expandIconExpanded").

Definition slideUpToHide (button : nat) : M unit :=
  onContent (λ c, set_height (Number_toString (offsetHeight c) +:+ "px") c) ;;
  onContent (set_contentClasses (remove "expanded")) ;;
  onContent (set_height "0") ;;
  setTimeout AfterHide ;;
  onIcon button (remove "emby-collapse-expandIconExpanded").

(** [onButtonClick] with [this] the button of index [button]; the content
    is looked up from the parent of the button, the element. *)
Definition onButtonClick (button : nat) : M unit :=
  content ← gets collapseContent;
  match content with
  | Some c =>
      if expanded c
      then onContent (set_expanded false) ;; slideUpToHide button
      else onContent (set_expanded true) ;; slideDownToShow button
  | None => throw
  end.

(** An attribute in markup: the name, an equals sign and the value between
    double quotes. *)
Definition attribute (name value : string) : string :=
  let quote := String (ascii_of_nat 34) EmptyString in
  name +:+ "=" +:+ quote +:+ value +:+ quote.

(** A title without markup characters: no angle bracket, no ampersand and
    no double quote.  The parser of [insertAdjacentHTML] then reads the
    title as the text of the heading and as the value of its attribute,
    and nothing of it as a tag or an attribute. *)
Definition plainText (title : string) : bool :=
  forallb
    (λ c, negb (Ascii.eqb c "<" || Ascii.eqb c ">" || Ascii.eqb c "&"
                || Ascii.eqb c (ascii_of_nat 34)))
    (list_ascii_of_string title).

(** The button that [insertAdjacentHTML] creates from the markup built by
    [attachedCallback], for a title without markup characters
    ([plainText]).  The title goes into the markup as it is, so a title
    with tags makes the parser create other descendants; what it creates
    then is not modelled, and the statements about the inserted button
    are for plain titles. *)
Definition toggleButton (title : string) : Button := {|
  markup :=
    "<button " +:+ attribute "is" "emby-button"
    +:+ " " +:+ attribute "type" "button"
    +:+ " " +:+ attribute "on-click" "toggleExpand"
    +:+ " " +:+ attribute "id" "expandButton"
    +:+ " " +:+ attribute "class" "emby-collapsible-button iconRight"
    +:+ "><h3 " +:+ attribute "class" "emby-collapsible-title"
    +:+ " " +:+ attribute "title" title
    +:+ ">" +:+ title +:+ "</h3><span "
    +:+ attribute "class" "material-icons emby-collapse-expandIcon expand_more"
    +:+ "></span></button>";
  icon := Some ["material-icons"; "emby-collapse-expandIcon"; "expand_more"];
  clickListener := false
|}.

Definition attachedCallback : M unit :=
  cl ← gets classList;
  if contains cl "emby-collapse" then mret ()
  else
    modify (set_classList (add "emby-collapse")) ;;
    onContent (set_contentClasses (add "hide")) ;;
    title ← gets (λ e, default "null" (title e));
    modify (set_buttons (λ bs, toggleButton title :: bs)) ;;
    let button := 0%nat in
    modify (set_buttons (alter (λ b, Build_Button (markup b) (icon b) true) button)) ;;
    d ← gets dataExpanded;
    if bool_decide (d = Some "true") then onButtonClick button else mret ().

(** ** What happens to an attached element *)

(** The element is attached, the user clicks the button of some index, or
    the timer of some index fires. *)
Inductive Event :=
  | Attached
  | Click (button : nat)
  | Timeout (i : nat).

Definition step (e : Event) (el : Element) : Element :=
  match e with
  | Attached => after (attachedCallback el)
  | Click button =>
      match buttons el !! button with
      | Some b => if clickListener b then after (onButtonClick button el) else el
      | None => el
      end
  | Timeout i =>
      match timers el !! i with
      | Some t => after (onTimeout t (set_timers (delete i) el))
      | None => el
      end
  end.

End Layout.

End EmbyCollapse.

(* ================================================================== *)
(** * Facts about the built-in operations                             *)
(* ================================================================== *)

Section JSFacts.
Import JS.

(** Evaluate the character codes of the literal characters of a goal. *)
Ltac eval_char_codes :=
  repeat match goal with
  | |- context [Z.of_nat (nat_of_ascii ?c)] =>
      let v := eval vm_compute in (Z.of_nat (nat_of_ascii c)) in
      change (Z.of_nat (nat_of_ascii c)) with v
  end.

Lemma parseDigits_uint_acc (d : uint) (acc : positive) :
  parseDigits 10 (Z.pos acc) (NilEmpty.string_of_uint d)
  = Z.pos (Pos.of_uint_acc d acc).
Proof.
  revert acc. induction d; intros acc; simpl; try reflexivity;
    rewrite <- IHd; f_equal; eval_char_codes; lia.
Qed.

Lemma parseDigits_uint (d : uint) :
  parseDigits 10 0 (NilEmpty.string_of_uint d) = Z.of_N (Pos.of_uint d).
Proof.
  induction d; simpl; try reflexivity; try assumption;
    eval_char_codes; apply parseDigits_uint_acc.
Qed.

Lemma string_of_uint_first_digit (d : uint) :
  d ≠ Nil →
  ∃ c r v, NilEmpty.string_of_uint d = String c r
           ∧ digitValue c = Some v ∧ v < 10
           ∧ isWhiteSpace c = false
           ∧ stripSign (String c r) = (1, String c r)
           ∧ stripPrefix (String c r) = (10, String c r).
Proof.
  intros Hd. destruct d as [|d|d|d|d|d|d|d|d|d|d]; [done|..]; simpl;
    eexists _, _, _; (split; [reflexivity|]);
    (split; [reflexivity|]); (split; [reflexivity|]);
    (split; [reflexivity|]); (split; [reflexivity|]);
    try (destruct d; reflexivity).
Qed.

Lemma parseInt_numeral (d : uint) :
  d ≠ Nil →
  parseInt (NilEmpty.string_of_uint d) = Some (Z.of_uint d).
Proof.
  intros Hd.
  destruct (string_of_uint_first_digit d Hd)
    as (c & r & v & Hs & Hv & Hlt & Hw & Hsign & Hpre).
  pose proof (parseDigits_uint d) as Hpd. rewrite Hs in Hpd.
  unfold parseInt. rewrite Hs. simpl trimStart. rewrite Hw, Hsign, Hpre, Hv.
  apply Z.ltb_lt in Hlt. rewrite Hlt, Hpd. unfold Z.of_uint.
  f_equal; lia.
Qed.

Lemma parseInt_negative_numeral (d : uint) :
  d ≠ Nil →
  parseInt (String "-" (NilEmpty.string_of_uint d)) = Some (- Z.of_uint d).
Proof.
  intros Hd.
  destruct (string_of_uint_first_digit d Hd)
    as (c & r & v & Hs & Hv & Hlt & Hw & Hsign & Hpre).
  pose proof (parseDigits_uint d) as Hpd. rewrite Hs in Hpd.
  unfold parseInt. rewrite Hs.
  change (trimStart (String "-" (String c r))) with (String "-" (String c r)).
  change (stripSign (String "-" (String c r))) with (-1, String c r).
  cbv beta iota. rewrite Hpre, Hv.
  apply Z.ltb_lt in Hlt. rewrite Hlt, Hpd. unfold Z.of_uint.
  f_equal; lia.
Qed.

(** Parsing the numeral of an integer gives the integer back. *)
Lemma parseInt_Number_toString (n : Z) :
  parseInt (Number_toString n) = Some n.
Proof.
  unfold Number_toString.
  rewrite <- (DecimalZ.of_to n) at 2.
  destruct n as [|p|p]; [reflexivity|..]; simpl Z.to_int.
  - apply parseInt_numeral, Unsigned.to_uint_nonnil.
  - apply parseInt_negative_numeral, Unsigned.to_uint_nonnil.
Qed.

Lemma Number_toString_inj (m n : Z) :
  Number_toString m = Number_toString n → m = n.
Proof.
  intros H. apply (f_equal parseInt) in H.
  rewrite !parseInt_Number_toString in H. congruence.
Qed.

End JSFacts.

Section PlayabilityFacts.
Import JS PdfPlayer.

Lemma substr_suffix (k : nat) (s : string) : ∃ pre, s = pre +:+ substr k s.
Proof.
  revert s. induction k as [|k IH]; intros s.
  - by exists EmptyString.
  - destruct s as [|c s]; [by exists EmptyString|].
    destruct (IH s) as [pre Hpre]. exists (String c pre).
    exact (f_equal (String c) Hpre).
Qed.

Lemma endsWith_suffix (s t : string) :
  endsWith s t = true → ∃ pre, s = pre +:+ t.
Proof.
  unfold endsWith. intros [_ H]%andb_true_iff.
  apply String.eqb_eq in H. rewrite <- H. apply substr_suffix.
Qed.

Lemma toLowerCaseChar_letter (c : ascii) :
  (toLowerCaseChar c = "b" → c = "b" ∨ c = "B")%char
  ∧ (toLowerCaseChar c = "o" → c = "o" ∨ c = "O")%char
  ∧ (toLowerCaseChar c = "k" → c = "k" ∨ c = "K")%char.
Proof.
  destruct c as [[] [] [] [] [] [] [] []]; vm_compute;
    (repeat split); intros H; first [discriminate H | by left | by right].
Qed.

(** [toLowerCase] is defined on the strings of ASCII characters. *)
Lemma toLowerCase_ASCII (s : string) :
  isASCII s = true → is_Some (toLowerCase s).
Proof.
  unfold isASCII. induction s as [|c s IH]; simpl; [by eexists|].
  intros [Hc Hs]%andb_true_iff. rewrite Hc.
  destruct (IH Hs) as [t ->]. by eexists.
Qed.

(** One step of [toLowerCase]. *)
Lemma toLowerCase_cons (c : ascii) (s t : string) :
  toLowerCase (String c s) = Some t →
  ∃ t', t = String (toLowerCaseChar c) t' ∧ toLowerCase s = Some t'.
Proof.
  simpl. destruct (isASCIIChar c); [|discriminate].
  destruct (toLowerCase s) as [t'|]; simpl; [|discriminate].
  intros [= <-]. by exists t'.
Qed.

Lemma toLowerCase_book (t : string) :
  toLowerCase t = Some "book" → spellsBook t.
Proof.
  intros H.
  destruct t as [|c1 t]; [discriminate H|].
  apply toLowerCase_cons in H as (t1 & [= H1 <-] & H).
  destruct t as [|c2 t]; [discriminate H|].
  apply toLowerCase_cons in H as (t2 & [= H2 <-] & H).
  destruct t as [|c3 t]; [discriminate H|].
  apply toLowerCase_cons in H as (t3 & [= H3 <-] & H).
  destruct t as [|c4 t]; [discriminate H|].
  apply toLowerCase_cons in H as (t4 & [= H4 <-] & H).
  destruct t as [|c5 t];
    [|apply toLowerCase_cons in H as (t5 & [=] & _)].
  exists c1, c2, c3, c4. split; [reflexivity|].
  repeat split; by apply toLowerCaseChar_letter.
Qed.

Lemma spellsBook_toLowerCase (t : string) :
  spellsBook t → toLowerCase t = Some "book".
Proof.
  intros (c1 & c2 & c3 & c4 & -> & [->| ->] & [->| ->] & [->| ->] & [->| ->]);
    reflexivity.
Qed.

(** What [canPlayMediaType] answers for a media type of ASCII
    characters. *)
Lemma canPlayMediaType_ASCII (mediaType : option string) :
  isASCII (default EmptyString mediaType) = true →
  ∃ b, canPlayMediaType mediaType = Some b
       ∧ (b = true ↔ ∃ t, mediaType = Some t ∧ spellsBook t).
Proof.
  intros Hascii. unfold canPlayMediaType.
  destruct (toLowerCase_ASCII _ Hascii) as [low Hlow]. rewrite Hlow. simpl.
  eexists. split; [reflexivity|]. split.
  - intros H%String.eqb_eq. subst low.
    destruct mediaType as [t|]; [|discriminate Hlow].
    exists t. split; [reflexivity|]. by apply toLowerCase_book.
  - intros (t & -> & Ht). apply spellsBook_toLowerCase in Ht.
    simpl in Hlow. rewrite Ht in Hlow. injection Hlow as <-. reflexivity.
Qed.

(** C4, as the specification words it, fails: [canPlayItem] accepts an
    item whose path ends with the letters pdf without a dot before them,
    which has no PDF extension, and whose declared type is not book. *)
Lemma notapdf_accepted :
  let it := {| Id := "9"; ServerId := "a"; Path := Some "/books/notapdf";
               MediaType := Some "Video" |} in
  canPlayItem it = true
  ∧ endsInPdfExtension "/books/notapdf" = false
  ∧ canPlayMediaType (MediaType it) = Some false
  ∧ ¬ (∀ it : Item,
         canPlayItem it = true ∨ canPlayMediaType (MediaType it) = Some true →
         pdfOrBook it).
Proof.
  intros it. split; [reflexivity|]. split; [reflexivity|].
  split; [reflexivity|].
  intros Hclaim. destruct (Hclaim it) as [(path & Hpath & Hext)|(t & Ht & Hb)].
  - left. reflexivity.
  - injection Hpath as <-. discriminate Hext.
  - injection Ht as <-. destruct Hb as (c1 & c2 & c3 & c4 & Hb & _).
    discriminate Hb.
Qed.

(** C4, amended.  [canPlayItem] accepts an item only when its path ends
    with the letters pdf, with or without a dot before them; and
    [canPlayMediaType] accepts the declared type of an item, when it is
    made of ASCII characters, only when it spells book in some mix of
    upper and lower case.  In particular [canPlayItem] returns true for
    every item with path movie.pdf and false for every item with path
    movie.mkv. *)
Theorem canPlay_only_pdf_or_book :
  (∀ it : Item,
     canPlayItem it = true → ∃ pre, Path it = Some (pre +:+ "pdf"))
  ∧ (∀ it : Item,
       isASCII (default EmptyString (MediaType it)) = true →
       ∃ b, canPlayMediaType (MediaType it) = Some b
            ∧ (b = true → ∃ t, MediaType it = Some t ∧ spellsBook t))
  ∧ (∀ it : Item, Path it = Some "movie.pdf" → canPlayItem it = true)
  ∧ (∀ it : Item, Path it = Some "movie.mkv" → canPlayItem it = false).
Proof.
  split; [|split; [|split]].
  - intros it H. unfold canPlayItem in H.
    destruct (Path it) as [path|]; [|discriminate].
    destruct (negb (String.eqb path EmptyString) && endsWith path "pdf")
      eqn:E; [|discriminate].
    apply andb_true_iff in E as [_ E].
    destruct (endsWith_suffix _ _ E) as [pre ->]. by exists pre.
  - intros it Hascii.
    destruct (canPlayMediaType_ASCII _ Hascii) as (b & Hb & Hiff).
    exists b. split; [exact Hb|]. apply Hiff.
  - intros it H. unfold canPlayItem. by rewrite H.
  - intros it H. unfold canPlayItem. by rewrite H.
Qed.

Lemma canPlay_only_pdf_or_book_witness :
  let book := {| Id := "7"; ServerId := "a"; Path := Some "movie.pdf";
                 MediaType := Some "Book" |} in
  let film := {| Id := "8"; ServerId := "a"; Path := Some "movie.mkv";
                 MediaType := Some "Video" |} in
  canPlayItem book = true
  ∧ canPlayItem film = false
  ∧ (∃ pre, Path book = Some (pre +:+ "pdf"))
  ∧ (∃ b, canPlayMediaType (MediaType book) = Some b
          ∧ (b = true → ∃ t, MediaType book = Some t ∧ spellsBook t)).
Proof.
  intros book film.
  destruct canPlay_only_pdf_or_book as (Hpath & Htype & Hpdf & Hmkv).
  split; [|split; [|split]].
  - apply Hpdf. reflexivity.
  - apply Hmkv. reflexivity.
  - apply Hpath. reflexivity.
  - apply Htype. reflexivity.
Defined.

End PlayabilityFacts.

Section CollapseFacts.
Import JS Eff EmbyCollapse.

Variable offsetHeight : Content → Z.

Lemma contains_add (c : string) (l : list string) :
  contains (add c l) c = true.
Proof.
  unfold add, contains. destruct (bool_decide (c ∈ l)) eqn:E.
  - exact E.
  - apply bool_decide_eq_true. set_solver.
Qed.

(** Whatever a click on a button does, it leaves the classes of the
    element alone. *)
Lemma onButtonClick_classList (button : nat) (e : Element) :
  classList (after (onButtonClick offsetHeight button e)) = classList e.
Proof.
  unfold onButtonClick, slideUpToHide, slideDownToShow, onIcon, onContent,
    setTimeout, mbind, M_bind, mret, M_ret, gets, modify, throw.
  simpl. repeat (case_match; simpl; try done).
Qed.

Lemma attachedCallback_marks (e : Element) :
  contains (classList (after (attachedCallback offsetHeight e)))
    "emby-collapse" = true.
Proof.
  unfold attachedCallback.
  unfold mbind at 1, M_bind at 1, gets at 1.
  destruct (contains (classList e) "emby-collapse") eqn:E; [exact E|].
  unfold mbind, M_bind, mret, M_ret, gets, modify. simpl.
  case_bool_decide.
  - rewrite onButtonClick_classList. simpl. apply contains_add.
  - simpl. apply contains_add.
Qed.

(** C10.  [attachedCallback] initialises an element at most once: on an
    element that carries the class emby-collapse it returns at once and
    leaves the element, its buttons, its listeners and the timers as they
    are; and after a first call, however it ended, the element carries
    the class, so a second call changes nothing. *)
Theorem attachedCallback_once (e : Element) :
  (contains (classList e) "emby-collapse" = true →
   attachedCallback offsetHeight e = Normal () e)
  ∧ (let e1 := after (attachedCallback offsetHeight e) in
     attachedCallback offsetHeight e1 = Normal () e1).
Proof.
  assert (∀ e', contains (classList e') "emby-collapse" = true →
                attachedCallback offsetHeight e' = Normal () e') as Hskip.
  { intros e' H. unfold attachedCallback.
    unfold mbind at 1, M_bind at 1, gets at 1. by rewrite H. }
  split; [apply Hskip|]. simpl. apply Hskip, attachedCallback_marks.
Qed.

End CollapseFacts.

Lemma attachedCallback_once_witness :
  let e0 := {| EmbyCollapse.classList := ["filterPanel"];
               EmbyCollapse.title := Some "Filters";
               EmbyCollapse.dataExpanded := Some "true";
               EmbyCollapse.buttons := [];
               EmbyCollapse.collapseContent :=
                 Some {| EmbyCollapse.contentClasses := ["collapseContent"];
                         EmbyCollapse.expanded := false;
                         EmbyCollapse.height := EmptyString |};
               EmbyCollapse.timers := [] |} in
  let e := Eff.after (EmbyCollapse.attachedCallback (λ _, 120) e0) in
  EmbyCollapse.contains (EmbyCollapse.classList e) "emby-collapse" = true
  ∧ EmbyCollapse.attachedCallback (λ _, 120) e = Eff.Normal () e
  ∧ length (EmbyCollapse.buttons e) = 1%nat.
Proof.
  intros e0 e. split; [reflexivity|]. split; [|reflexivity].
  apply (proj1 (attachedCallback_once (λ _, 120) e)). reflexivity.
Defined.

(* ================================================================== *)
(** * The player on a ten-page document                                *)
(* ================================================================== *)

Section Scenarios.
Import JS Eff PdfPlayer.

Variable it : Item.

Let tenPages : Document := {| numPages := 10 |}.

(** The events of a play cycle up to the first page shown: the host calls
    [play], the import of pdf.js is fulfilled, then the download. *)
Let opening (ticks : Z) : list Event :=
  [CallPlay {| items := [it]; startPositionTicks := ticks |};
   Fulfilled 0; DocumentFulfilled 0 tenPages].

(** C3.  A ten-page document started at page 1 has the pages 1, 2 and 3
    in the cache; after three calls of [next] the progress is 3, page 4 is
    shown, the cache holds the pages 2 to 6, and page 1 is gone. *)
Theorem ten_pages_three_nexts :
  ∃ st1 st2,
    run (opening 0) constructed = Some st1
    ∧ dom (pages st1) = {[ "page1"; "page2"; "page3" ]}
    ∧ domCanvas st1 = pages st1 !! "page1"
    ∧ run [CallNext; CallNext; CallNext] st1 = Some st2
    ∧ currentTime st2 = 3
    ∧ is_Some (domCanvas st2)
    ∧ domCanvas st2 = pages st2 !! "page4"
    ∧ dom (pages st2) = {[ "page2"; "page3"; "page4"; "page5"; "page6" ]}
    ∧ pages st2 !! "page1" = None.
Proof.
  eexists _, _. split; [vm_compute; reflexivity|].
  split; [vm_compute; reflexivity|].
  split; [vm_compute; reflexivity|].
  split; [vm_compute; reflexivity|].
  split; [vm_compute; reflexivity|].
  split; [vm_compute; eauto|].
  split; [vm_compute; reflexivity|].
  split; vm_compute; reflexivity.
Qed.

(** C1, the code on a ten-page document.  After eight calls of [next]
    page 9 is shown, and the cache holds the pages 7, 8 and 9 only: page
    10, a page of the document within distance 2, is not in it. *)
Theorem last_page_not_in_window :
  ∃ st,
    run (opening 0 ++ replicate 8 CallNext) constructed = Some st
    ∧ currentTime st = 8
    ∧ is_Some (domCanvas st)
    ∧ domCanvas st = pages st !! "page9"
    ∧ dom (pages st) = {[ "page7"; "page8"; "page9" ]}
    ∧ pages st !! "page10" = None
    ∧ duration st = 10.
Proof.
  eexists. split; [vm_compute; reflexivity|].
  split; [vm_compute; reflexivity|].
  split; [vm_compute; eauto|].
  split; [vm_compute; reflexivity|].
  split; [vm_compute; reflexivity|].
  split; vm_compute; reflexivity.
Qed.

(** C2, the code on a render that settles after [stop].  The document is
    loaded, which requests page 1 for the canvas cached under page1; the
    host stops the player; then the request is fulfilled.  The
    continuation of [renderPage] runs although the cancellation flag is
    set: it triggers timeupdate, sizes the cached canvas and starts the
    drawing. *)
Theorem render_after_stop_runs :
  ∃ st st' cv,
    run (opening 0 ++ [CallStop]) constructed = Some st
    ∧ cancellationToken st = true
    ∧ tasks st !! 0%nat = Some (GetPage tenPages cv (Some 1))
    ∧ pages st !! "page1" = Some cv
    ∧ canvases st !! cv = Some Blank
    ∧ step (Fulfilled 0) st = Some st'
    ∧ pages st' !! "page1" = Some cv
    ∧ canvases st' !! cv = Some (Sized 1)
    ∧ timeupdates st' = S (timeupdates st)
    ∧ RenderTask cv 1 ∈ tasks st'.
Proof.
  eexists _, _, _. split; [vm_compute; reflexivity|].
  split; [vm_compute; reflexivity|].
  split; [vm_compute; reflexivity|].
  split; [vm_compute; reflexivity|].
  split; [vm_compute; reflexivity|].
  split; [vm_compute; reflexivity|].
  split; [vm_compute; reflexivity|].
  split; [vm_compute; reflexivity|].
  split; [vm_compute; reflexivity|].
  vm_compute. set_solver.
Qed.

(** C7, the code on a start position.  Started with
    [startPositionTicks = 30000] the player shows page 3 of the document
    while its progress is 3: the page shown is not the page of number
    progress + 1. *)
Theorem start_position_shows_page_of_progress :
  ∃ st cv,
    run (opening 30000) constructed = Some st
    ∧ loaded st = true
    ∧ currentTime st = 3
    ∧ domCanvas st = Some cv
    ∧ pages st !! "page3" = Some cv
    ∧ pages st !! "page4" ≠ Some cv.
Proof.
  eexists _, _. split; [vm_compute; reflexivity|].
  split; [vm_compute; reflexivity|].
  split; [vm_compute; reflexivity|].
  split; [vm_compute; reflexivity|].
  split; [vm_compute; reflexivity|].
  vm_compute. discriminate.
Qed.

End Scenarios.

(* ================================================================== *)
(** * Navigation at the first and at the last page                     *)
(* ================================================================== *)

Section Navigation.
Import JS Eff PdfPlayer.

Lemma previous_at_first (st : State) :
  progress st = 0 → previous st = Normal () st.
Proof.
  intros H. unfold previous, mbind, M_bind, gets. by rewrite H.
Qed.

Lemma next_at_last (st : State) :
  progress st = duration st - 1 → next st = Normal () st.
Proof.
  intros H. unfold next, mbind, M_bind, gets.
  by rewrite (proj2 (Z.eqb_eq _ _) H).
Qed.

(** C5.  [previous] at progress 0 and [next] at progress
    [duration() - 1] return at once: the whole state, so the progress,
    the cache and the canvas shown, is as before.  The same holds when
    the call comes from the keyboard or from a touch. *)
Theorem navigation_clamped (st : State) :
  (progress st = 0 →
   previous st = Normal () st
   ∧ (∀ key, key ∈ ["j"; "ArrowLeft"; "Left"] → step (KeyUp key) st = Some st)
   ∧ (∀ rest, step (TouchStart (Some (true :: rest))) st = Some st))
  ∧ (progress st = duration st - 1 →
     next st = Normal () st
     ∧ (∀ key, key ∈ ["l"; "ArrowRight"; "Right"] → step (KeyUp key) st = Some st)
     ∧ (∀ rest, step (TouchStart (Some (false :: rest))) st = Some st)).
Proof.
  split; intros H.
  - pose proof (previous_at_first st H) as Hp. split; [exact Hp|]. split.
    + intros key Hkey. simpl. destruct (keyup (listeners st)); [|done].
      unfold onWindowKeyUp, mbind, M_bind, gets.
      destruct (loaded st); simpl; [|done].
      rewrite (bool_decide_eq_true_2 _ Hkey).
      case_bool_decide as Hr; [|by rewrite Hp].
      rewrite !elem_of_cons, elem_of_nil in Hkey, Hr.
      destruct Hkey as [->|[->|[->|[]]]];
        destruct Hr as [?|[?|[?|[]]]]; discriminate.
    + intros rest. simpl. destruct (touchstart (listeners st)); [|done].
      unfold onTouchStart, mbind, M_bind, gets.
      destruct (loaded st); simpl; [|done]. by rewrite Hp.
  - pose proof (next_at_last st H) as Hn. split; [exact Hn|]. split.
    + intros key Hkey. simpl. destruct (keyup (listeners st)); [|done].
      unfold onWindowKeyUp, mbind, M_bind, gets.
      destruct (loaded st); simpl; [|done].
      rewrite (bool_decide_eq_true_2 _ Hkey). by rewrite Hn.
    + intros rest. simpl. destruct (touchstart (listeners st)); [|done].
      unfold onTouchStart, mbind, M_bind, gets.
      destruct (loaded st); simpl; [|done]. by rewrite Hn.
Qed.

End Navigation.

Lemma navigation_clamped_witness :
  let st := PdfPlayer.set_loaded (λ _, true)
              (PdfPlayer.set_book (λ _, Some {| PdfPlayer.numPages := 1 |})
                 PdfPlayer.constructed) in
  PdfPlayer.progress st = 0
  ∧ PdfPlayer.progress st = PdfPlayer.duration st - 1
  ∧ PdfPlayer.previous st = Eff.Normal () st
  ∧ PdfPlayer.next st = Eff.Normal () st.
Proof.
  intros st. split; [reflexivity|]. split; [reflexivity|]. split.
  - apply (proj1 (navigation_clamped st)). reflexivity.
  - apply (proj2 (navigation_clamped st)). reflexivity.
Defined.

(* ================================================================== *)
(** * The page cache window                                            *)
(* ================================================================== *)

Section CacheWindow.
Import JS Eff PdfPlayer.

Local Abbreviation key k := (prefix +:+ Number_toString k) (only parsing).

(** Unfolding of the monad operations. *)
Ltac eff := unfold mbind, M_bind, mret, M_ret, gets, modify, throw, spawn.

Lemma string_app_inj (p s t : string) : p +:+ s = p +:+ t → s = t.
Proof. induction p as [|c p IH]; simpl; intros H; [done|]. injection H as H. by apply IH. Qed.

Lemma state_eta (st : State) :
  Build_State (progress st) (loaded st) (cancellationToken st) (pages st)
    (book st) (mediaElement st) (item st) (canvases st) (domCanvas st)
    (dialog st) (listeners st) (loadingShown st) (timeupdates st) (tasks st)
    (promises st) = st.
Proof. by destruct st. Qed.

Lemma substr_prefix (s : string) : substr 4 (prefix +:+ s) = s.
Proof. reflexivity. Qed.

Lemma key_inj (j k : Z) : key j = key k → j = k.
Proof.
  intros H. apply Number_toString_inj.
  apply (f_equal (substr 4)) in H. by rewrite !substr_prefix in H.
Qed.

(** ** The list of pages to keep *)

Lemma pageList_numbers (number d : Z) :
  ∃ ks : list Z,
    pageList number d = (λ k, key k) <$> ks
    ∧ number ∈ ks
    ∧ ∀ k, k ∈ ks → number - pad ≤ k ≤ number + pad ∧ (0 < number → 0 < k).
Proof.
  exists (foldl (λ ks i,
                   let ks := if number - i >? 0 then ks ++ [number - i] else ks in
                   if number + i <? d then ks ++ [number + i] else ks)
                [number] (seqZ 1 pad)).
  unfold pageList. change (seqZ 1 pad) with [1; 2]. unfold pad. simpl.
  destruct (Z.gtb_spec (number - 1) 0), (Z.ltb_spec (number + 1) d),
    (Z.gtb_spec (number - 2) 0), (Z.ltb_spec (number + 2) d); simpl;
    (split; [reflexivity|]; split; [by left|]);
    intros k Hk; rewrite ?elem_of_cons, elem_of_nil in Hk; lia.
Qed.


(** ** The loop that loads the missing pages *)

Lemma loadMissing_cached (page : string) (st : State) :
  is_Some (pages st !! page) → loadMissing page st = Normal () st.
Proof. intros [cv H]. unfold loadMissing. eff. by rewrite H. Qed.

Lemma forEach_loadMissing_cached (keys : list string) (st : State) :
  (∀ page, page ∈ keys → is_Some (pages st !! page)) →
  forEach keys loadMissing st = Normal () st.
Proof.
  induction keys as [|page keys IH]; intros H; [done|].
  simpl. unfold mbind, M_bind.
  rewrite loadMissing_cached by (apply H; by left).
  apply IH. intros p Hp. apply H. by right.
Qed.

(** Without a document the loop issues no render. *)
Lemma forEach_loadMissing_no_book (keys : list string) (st : State) :
  book st = None →
  tasks (after (forEach keys loadMissing st)) = tasks st
  ∧ book (after (forEach keys loadMissing st)) = None.
Proof.
  revert st. induction keys as [|page keys IH]; intros st Hb; [done|].
  simpl. unfold mbind, M_bind. unfold loadMissing at 1 3. eff.
  destruct (pages st !! page) as [cv|]; [by apply IH|].
  unfold createCanvas, renderPage. eff. simpl. by rewrite Hb.
Qed.

Lemma framed_refl (st : State) : framed st st.
Proof. unfold framed, set_tasks, set_pages, set_canvases. simpl. by rewrite state_eta. Qed.

Lemma framed_trans (st1 st2 st3 : State) :
  framed st1 st2 → framed st2 st3 → framed st1 st3.
Proof.
  unfold framed. intros H12 H23. rewrite H23 at 1. rewrite H12 at 1. reflexivity.
Qed.


Lemma loadMissing_missing (k : Z) (doc : Document) (st : State) :
  book st = Some doc → pages st !! key k = None →
  let cv := fresh (dom (canvases st)) in
  loadMissing (key k) st
  = Normal () (set_tasks (λ ts, ts ++ [GetPage doc cv (Some k)])
                 (set_pages (insert (key k) cv)
                    (set_canvases (insert cv Blank) st))).
Proof.
  intros Hb Hp. unfold loadMissing, createCanvas, renderPage. eff.
  rewrite Hp. simpl. rewrite Hb.
  change (EmptyString +:+ Number_toString k) with (Number_toString k).
  by rewrite parseInt_Number_toString.
Qed.

(** With a document the loop completes: it renders each missing page
    once, into a canvas that it caches under the key of the page. *)
Lemma forEach_loadMissing_book (ks : list Z) (doc : Document) (st : State) :
  book st = Some doc →
  ∃ st' new,
    forEach ((λ k, key k) <$> ks) loadMissing st = Normal () st'
    ∧ framed st st'
    ∧ pages st ⊆ pages st'
    ∧ (∀ k, k ∈ ks → is_Some (pages st' !! key k))
    ∧ (∀ page, is_Some (pages st' !! page) →
         is_Some (pages st !! page) ∨ page ∈ (λ k, key k) <$> ks)
    ∧ tasks st' = tasks st ++ new
    ∧ Forall (λ t, ∃ cv k, t = GetPage doc cv (Some k) ∧ k ∈ ks
                           ∧ pages st !! key k = None
                           ∧ pages st' !! key k = Some cv) new
    ∧ NoDup (requestedPage <$> new).
Proof.
  revert st. induction ks as [|k ks IH]; intros st Hb.
  - exists st, []. split; [done|]. split; [apply framed_refl|].
    split; [done|]. split; [by intros k Hk%elem_of_nil|].
    split; [by left|]. split; [by rewrite app_nil_r|].
    split; constructor.
  - simpl. unfold mbind, M_bind.
    destruct (pages st !! key k) as [cv|] eqn:Hk.
    + rewrite loadMissing_cached by by rewrite Hk.
      destruct (IH st Hb) as (st' & new & Hrun & Hfr & Hsub & Hall & Hdom & Ht & Hnew & Hnd).
      exists st', new. split; [exact Hrun|]. split; [exact Hfr|].
      split; [exact Hsub|]. split.
      { intros j [->|Hj]%elem_of_cons; [|by apply Hall].
        exists cv. by eapply lookup_weaken. }
      split.
      { intros page Hpage. destruct (Hdom page Hpage) as [?|?]; [by left|].
        right. by right. }
      split; [exact Ht|]. split; [|exact Hnd].
      eapply Forall_impl; [exact Hnew|]. simpl.
      intros t (cv' & j & -> & Hj & Hnone & Hsome).
      exists cv', j. repeat split; try done. by right.
    + rewrite (loadMissing_missing k doc st Hb Hk).
      set (cv := fresh (dom (canvases st))).
      set (st1 := set_tasks (λ ts, ts ++ [GetPage doc cv (Some k)])
                    (set_pages (insert (key k) cv)
                       (set_canvases (insert cv Blank) st))).
      assert (book st1 = Some doc) as Hb1 by exact Hb.
      destruct (IH st1 Hb1) as (st' & new & Hrun & Hfr & Hsub & Hall & Hdom & Ht & Hnew & Hnd).
      assert (pages st1 !! key k = Some cv) as Hk1
        by (unfold st1; simpl; apply lookup_insert_eq).
      exists st', (GetPage doc cv (Some k) :: new).
      split; [exact Hrun|]. split.
      { eapply framed_trans; [|exact Hfr]. unfold framed. unfold st1.
        unfold set_tasks, set_pages, set_canvases. simpl. reflexivity. }
      split.
      { etrans; [|exact Hsub]. unfold st1. simpl. by apply insert_subseteq. }
      split.
      { intros j [->|Hj]%elem_of_cons; [|by apply Hall].
        exists cv. by eapply lookup_weaken. }
      split.
      { intros page Hpage. destruct (Hdom page Hpage) as [Hin|?]; [|right; by right].
        unfold st1 in Hin. simpl in Hin. rewrite lookup_insert in Hin.
        case_decide as Heq; [right; subst page; by left|by left]. }
      split.
      { rewrite Ht. unfold st1. simpl. by rewrite <- app_assoc. }
      split.
      { constructor.
        - exists cv, k. repeat split; try done; [by left|].
          by eapply lookup_weaken.
        - eapply Forall_impl; [exact Hnew|]. simpl.
          intros t (cv' & j & -> & Hj & Hnone & Hsome).
          exists cv', j. repeat split; try done; [by right|].
          unfold st1 in Hnone. simpl in Hnone. rewrite lookup_insert in Hnone.
          by case_decide. }
      rewrite fmap_cons. constructor; [|exact Hnd]. simpl.
      intros Hin. apply list_elem_of_fmap in Hin as (t & Heq & Hin).
      rewrite Forall_forall in Hnew.
      destruct (Hnew t Hin) as (cv' & j & -> & Hj & Hnone & Hsome).
      simpl in Heq. by simplify_eq.
Qed.


(** Whenever the loop completes, every page of the list is cached. *)
Lemma forEach_loadMissing_normal (keys : list string) (st mid : State) :
  forEach keys loadMissing st = Normal () mid →
  (∀ page, page ∈ keys → is_Some (pages mid !! page))
  ∧ pages st ⊆ pages mid
  ∧ framed st mid.
Proof.
  revert st. induction keys as [|page keys IH]; intros st Hrun.
  - injection Hrun as <-. split; [by intros p Hp%elem_of_nil|].
    split; [done|apply framed_refl].
  - simpl in Hrun. unfold mbind, M_bind in Hrun.
    destruct (pages st !! page) as [cv|] eqn:Hp.
    + rewrite loadMissing_cached in Hrun by by rewrite Hp.
      destruct (IH st Hrun) as (Hall & Hsub & Hfr).
      split; [|done].
      intros p [->|Hin]%elem_of_cons; [|by apply Hall].
      exists cv. by eapply lookup_weaken.
    + unfold loadMissing at 1 in Hrun.
      unfold createCanvas, renderPage in Hrun.
      revert Hrun. eff. rewrite Hp. simpl.
      destruct (book st) as [doc|]; [|discriminate]. intros Hrun.
      destruct (IH _ Hrun) as (Hall & Hsub & Hfr). simpl in Hsub.
      split; [|split].
      * intros p [->|Hin]%elem_of_cons; [|by apply Hall].
        eexists. eapply lookup_weaken; [|exact Hsub]. apply lookup_insert_eq.
      * etrans; [|exact Hsub]. by apply insert_subseteq.
      * eapply framed_trans; [|exact Hfr]. unfold framed.
        unfold set_tasks, set_pages, set_canvases. simpl. reflexivity.
Qed.

(** ** The loop that deletes the pages outside the list *)

Lemma forEach_deleteOutside (pl keys : list string) (st : State) :
  ∃ st',
    forEach keys (deleteOutside pl) st = Normal () st'
    ∧ st' = set_pages (λ _, pages st') st
    ∧ ∀ page, pages st' !! page
              = if decide (page ∈ keys ∧ page ∉ pl) then None
                else pages st !! page.
Proof.
  revert st. induction keys as [|page0 keys IH]; intros st.
  - exists st. split; [done|]. split.
    + unfold set_pages. simpl. by rewrite state_eta.
    + intros page. case_decide as H; [|done]. by destruct H as [?%elem_of_nil _].
  - simpl. unfold mbind, M_bind. unfold deleteOutside at 1, includes. eff.
    case_bool_decide as Hin.
    + destruct (IH st) as (st' & Hrun & Hfr & Hlook).
      exists st'. split; [exact Hrun|]. split; [exact Hfr|].
      intros page. rewrite Hlook.
      destruct (decide (page ∈ keys ∧ page ∉ pl)) as [[Hk Hout]|Hn].
      * rewrite decide_True; [done|]. split; [by right|done].
      * rewrite decide_False; [done|].
        intros [[->|Hk]%elem_of_cons Hout]; [done|]. by apply Hn.
    + destruct (IH (set_pages (delete page0) st)) as (st' & Hrun & Hfr & Hlook).
      exists st'. split; [exact Hrun|]. split.
      { rewrite Hfr at 1. unfold set_pages. simpl. reflexivity. }
      intros page. rewrite Hlook. simpl. rewrite lookup_delete.
      destruct (decide (page ∈ keys ∧ page ∉ pl)) as [[Hk Hout]|Hn].
      * rewrite decide_True; [done|]. split; [by right|done].
      * destruct (decide (page0 = page)) as [<-|Hne].
        { rewrite decide_True; [done|]. split; [by left|done]. }
        rewrite decide_False; [done|].
        intros [[->|Hk]%elem_of_cons Hout]; [done|]. by apply Hn.
Qed.

Lemma forEach_deleteOutside_inside (pl keys : list string) (st : State) :
  (∀ page, page ∈ keys → page ∈ pl) →
  forEach keys (deleteOutside pl) st = Normal () st.
Proof.
  induction keys as [|page0 keys IH]; intros H; [done|].
  simpl. unfold mbind, M_bind. unfold deleteOutside at 1, includes. eff.
  rewrite bool_decide_eq_true_2 by (apply H; by left).
  apply IH. intros p Hp. apply H. by right.
Qed.

(** ** [loadPage] *)

Lemma loadPage_unfold (number : Z) (st : State) :
  loadPage number st
  = let pl := pageList number (duration st) in
    match forEach pl loadMissing st with
    | Normal _ mid =>
        match pages mid !! key number, domCanvas mid with
        | Some c, Some _ =>
            forEach (elements (dom (pages mid))) (deleteOutside pl)
              (set_domCanvas (λ _, Some c) mid)
        | _, _ => Throw mid
        end
    | Throw s => Throw s
    end.
Proof.
  unfold loadPage, replaceCanvas. eff. simpl.
  destruct (forEach _ loadMissing st) as [[] mid|s]; [|done].
  destruct (pages mid !! key number), (domCanvas mid); done.
Qed.


Lemma framed_fields (st st' : State) :
  framed st st' →
  book st' = book st ∧ domCanvas st' = domCanvas st
  ∧ progress st' = progress st ∧ duration st' = duration st.
Proof. unfold framed, duration. intros ->. done. Qed.

(** On a state that has the whole list cached, [loadPage] requests no
    render. *)
Lemma loadPage_cached_tasks (number : Z) (st : State) :
  (∀ page, page ∈ pageList number (duration st) → is_Some (pages st !! page)) →
  tasks (after (loadPage number st)) = tasks st.
Proof.
  intros Hall. rewrite loadPage_unfold. simpl.
  rewrite (forEach_loadMissing_cached _ _ Hall).
  destruct (pages st !! key number) as [c|]; [|done].
  destruct (domCanvas st); [|done].
  destruct (forEach_deleteOutside (pageList number (duration st))
              (elements (dom (pages st))) (set_domCanvas (λ _, Some c) st))
    as (st' & -> & -> & _).
  done.
Qed.

(** Without a document, [loadPage] requests no render either. *)
Lemma loadPage_no_book (number : Z) (st : State) :
  book st = None →
  tasks (after (loadPage number st)) = tasks st
  ∧ book (after (loadPage number st)) = None.
Proof.
  intros Hb. rewrite loadPage_unfold. simpl.
  destruct (forEach_loadMissing_no_book (pageList number (duration st)) st Hb)
    as [Ht Hb'].
  destruct (forEach _ loadMissing st) as [[] mid|s]; [|done]. simpl in *.
  destruct (pages mid !! key number) as [c|]; [|done].
  destruct (domCanvas mid); [|done].
  destruct (forEach_deleteOutside (pageList number (duration st))
              (elements (dom (pages mid))) (set_domCanvas (λ _, Some c) mid))
    as (st' & -> & -> & _).
  done.
Qed.

(** With a document, [loadPage] renders each missing page of the list
    once, into the canvas that it caches under the key of the page, and
    leaves the whole list cached, whether it completes or fails to find
    the canvas to replace. *)
Lemma loadPage_book (number : Z) (doc : Document) (st : State) :
  book st = Some doc →
  let st1 := after (loadPage number st) in
  ∃ (ks : list Z) (new : list Task),
    pageList number (numPages doc) = (λ k, key k) <$> ks
    ∧ book st1 = Some doc
    ∧ (∀ page, page ∈ pageList number (numPages doc) →
               is_Some (pages st1 !! page))
    ∧ tasks st1 = tasks st ++ new
    ∧ Forall (λ t, ∃ cv k, t = GetPage doc cv (Some k) ∧ k ∈ ks
                           ∧ pages st !! key k = None
                           ∧ pages st1 !! key k = Some cv) new
    ∧ NoDup (requestedPage <$> new).
Proof.
  intros Hb st1.
  destruct (pageList_numbers number (numPages doc)) as (ks & Hks & Hnum & Hrange).
  destruct (forEach_loadMissing_book ks doc st Hb)
    as (mid & new & Hrun & Hfr & Hsub & Hall & Hdom & Ht & Hnew & Hnd).
  assert (duration st = numPages doc) as Hd by (unfold duration; by rewrite Hb).
  exists ks, new. split; [exact Hks|].
  subst st1. rewrite loadPage_unfold, Hd. simpl. rewrite Hks, Hrun.
  destruct (framed_fields _ _ Hfr) as (Hbm & Hcm & _ & _).
  assert (∀ page, page ∈ (λ k, key k) <$> ks → is_Some (pages mid !! page))
    as Hall'.
  { intros page (k & -> & Hk)%list_elem_of_fmap. by apply Hall. }
  destruct (Hall number Hnum) as [c Hc]. rewrite Hc.
  destruct (domCanvas mid) as [old|]; simpl.
  - destruct (forEach_deleteOutside ((λ k, key k) <$> ks)
                (elements (dom (pages mid))) (set_domCanvas (λ _, Some c) mid))
      as (st' & -> & Hst' & Hlook).
    assert (∀ page, page ∈ (λ k, key k) <$> ks →
                    pages st' !! page = pages mid !! page) as Hkeep.
    { intros page Hpage. rewrite Hlook. simpl. case_decide as H; [|done].
      by destruct H. }
    simpl. split; [rewrite Hst'; simpl; by rewrite Hbm|].
    split; [intros page Hpage; rewrite Hkeep by done; by apply Hall'|].
    split; [rewrite Hst'; simpl; exact Ht|]. split; [|exact Hnd].
    eapply Forall_impl; [exact Hnew|]. simpl.
    intros t (cv & k & -> & Hk & Hnone & Hsome). exists cv, k.
    repeat split; try done. rewrite Hkeep; [done|].
    apply list_elem_of_fmap. by exists k.
  - split; [by rewrite Hbm|]. done.
Qed.

(** A second [loadPage] of the same page, after one that completed,
    changes nothing. *)
Lemma loadPage_idempotent (number : Z) (st st1 : State) :
  loadPage number st = Normal () st1 →
  (∀ page, page ∈ pageList number (duration st1) → is_Some (pages st1 !! page))
  ∧ loadPage number st1 = Normal () st1.
Proof.
  rewrite loadPage_unfold. simpl.
  destruct (forEach _ loadMissing st) as [[] mid|s] eqn:Hrun; [|discriminate].
  destruct (forEach_loadMissing_normal _ _ _ Hrun) as (Hall & Hsub & Hfr).
  destruct (framed_fields _ _ Hfr) as (Hbm & Hcm & _ & Hdm).
  destruct (pages mid !! key number) as [c|] eqn:Hc; [|discriminate].
  destruct (domCanvas mid) as [old|]; [|discriminate].
  destruct (forEach_deleteOutside (pageList number (duration st))
              (elements (dom (pages mid))) (set_domCanvas (λ _, Some c) mid))
    as (st' & Hdel & Hst' & Hlook).
  rewrite Hdel. intros [= <-].
  assert (duration st' = duration st) as Hd.
  { rewrite <- Hdm. rewrite Hst'. reflexivity. }
  assert (∀ page, page ∈ pageList number (duration st) →
                  pages st' !! page = pages mid !! page) as Hkeep.
  { intros page Hpage. rewrite Hlook. simpl. case_decide as H; [|done].
    by destruct H. }
  assert (∀ page, page ∈ pageList number (duration st) →
                  is_Some (pages st' !! page)) as Hall'.
  { intros page Hpage. rewrite Hkeep by done. by apply Hall. }
  rewrite Hd. split; [exact Hall'|].
  rewrite loadPage_unfold, Hd. simpl.
  rewrite (forEach_loadMissing_cached _ _ Hall').
  assert (key number ∈ pageList number (duration st)) as Hnum.
  { destruct (pageList_numbers number (duration st)) as (ks & -> & Hn & _).
    apply list_elem_of_fmap. by exists number. }
  rewrite (Hkeep _ Hnum), Hc.
  assert (domCanvas st' = Some c) as Hdc by (by rewrite Hst').
  rewrite Hdc.
  assert (set_domCanvas (λ _, Some c) st' = st') as ->.
  { unfold set_domCanvas. rewrite <- Hdc. apply state_eta. }
  apply forEach_deleteOutside_inside.
  intros page Hpage%elem_of_elements%elem_of_dom.
  rewrite Hlook in Hpage. simpl in Hpage.
  destruct (decide (page ∈ pageList number (duration st))) as [|Hout]; [done|].
  exfalso. case_decide as Hcond.
  - by destruct Hpage.
  - apply Hcond. split; [|done]. by apply elem_of_elements, elem_of_dom.
Qed.


(** With a document and a canvas in the dialog, [loadPage] completes; the
    keys of the cache are then the pages of its list, and the canvas shown
    is the one cached for the requested page. *)
Lemma loadPage_window (number : Z) (doc : Document) (st : State) :
  book st = Some doc → is_Some (domCanvas st) →
  ∃ st1,
    loadPage number st = Normal () st1
    ∧ dom (pages st1) = list_to_set (pageList number (numPages doc))
    ∧ is_Some (domCanvas st1)
    ∧ domCanvas st1 = pages st1 !! key number.
Proof.
  intros Hb [old Hold].
  destruct (pageList_numbers number (numPages doc)) as (ks & Hks & Hnum & _).
  destruct (forEach_loadMissing_book ks doc st Hb)
    as (mid & new & Hrun & Hfr & Hsub & Hall & Hdom & _).
  destruct (framed_fields _ _ Hfr) as (_ & Hcm & _ & _).
  assert (duration st = numPages doc) as Hd by (unfold duration; by rewrite Hb).
  rewrite loadPage_unfold, Hd. simpl. rewrite Hks, Hrun.
  destruct (Hall number Hnum) as [c Hc]. rewrite Hc, Hcm, Hold.
  destruct (forEach_deleteOutside ((λ k, key k) <$> ks)
              (elements (dom (pages mid))) (set_domCanvas (λ _, Some c) mid))
    as (st1 & -> & Hst1 & Hlook).
  exists st1. split; [done|].
  assert (domCanvas st1 = Some c) as Hdc by (by rewrite Hst1).
  split; [|split].
  - apply set_eq. intros page.
    rewrite elem_of_dom, elem_of_list_to_set, Hlook. simpl. split.
    + intros Hsome.
      destruct (decide (page ∈ (λ k, key k) <$> ks)) as [|Hout]; [done|].
      exfalso. case_decide as Hcond; [by destruct Hsome|].
      apply Hcond. split; [|done]. by apply elem_of_elements, elem_of_dom.
    + intros Hin. rewrite decide_False by (by intros [_ ?]).
      apply list_elem_of_fmap in Hin as (k & -> & Hk). by apply Hall.
  - by rewrite Hdc.
  - rewrite Hdc, Hlook. simpl. rewrite decide_False; [done|].
    intros [_ Hout]. apply Hout, list_elem_of_fmap. by exists number.
Qed.

(** C6.  Two calls of [loadPage] for the same page in succession: the
    second call requests no render; over both calls the requests are page
    renders for pairwise different pages; and when the first call
    completes, the second finds every page of the list cached and leaves
    the whole state, the cache included, as it is. *)
Theorem loadPage_twice (number : Z) (st : State) :
  let st1 := after (loadPage number st) in
  let st2 := after (loadPage number st1) in
  tasks st2 = tasks st1
  ∧ (∃ new,
       tasks st2 = tasks st ++ new
       ∧ Forall (λ t, ∃ doc cv k, t = GetPage doc cv (Some k)) new
       ∧ NoDup (requestedPage <$> new))
  ∧ (∀ st', loadPage number st = Normal () st' →
       (∀ page, page ∈ pageList number (duration st') →
                is_Some (pages st' !! page))
       ∧ loadPage number st' = Normal () st').
Proof.
  intros st1 st2.
  assert (tasks st2 = tasks st1
          ∧ ∃ new, tasks st1 = tasks st ++ new
                   ∧ Forall (λ t, ∃ doc cv k, t = GetPage doc cv (Some k)) new
                   ∧ NoDup (requestedPage <$> new)) as [H21 (new & H1 & Hnew & Hnd)].
  { destruct (book st) as [doc|] eqn:Hb.
    - destruct (loadPage_book number doc st Hb)
        as (ks & new & Hks & Hb1 & Hall & Ht & Hnew & Hnd).
      fold st1 in Hb1, Hall, Ht, Hnew. split.
      + apply loadPage_cached_tasks. unfold duration. by rewrite Hb1.
      + exists new. split; [done|]. split; [|done].
        eapply Forall_impl; [exact Hnew|]. simpl.
        intros t (cv & k & -> & _). by exists doc, cv, k.
    - destruct (loadPage_no_book number st Hb) as [Ht Hb1].
      fold st1 in Ht, Hb1. split.
      + by apply loadPage_no_book.
      + exists []. rewrite app_nil_r. split; [done|]. split; constructor. }
  split; [exact H21|]. split.
  - exists new. by rewrite H21.
  - apply loadPage_idempotent.
Qed.

(** C9.  The key of a page, the string page followed by the numeral of
    its number, gives the number back when its substring from index 4 is
    parsed as an integer, for every page number from 1 to the largest
    safe integer.  So a missing page is rendered under its own number, and
    every render that [loadPage] requests is for a page of its list, into
    the canvas cached under the key of that page. *)
Theorem page_key_round_trip :
  (∀ n, 0 < n ≤ MAX_SAFE_INTEGER →
        parseInt (substr 4 (prefix +:+ Number_toString n)) = Some n)
  ∧ (∀ n doc st, 0 < n ≤ MAX_SAFE_INTEGER →
       book st = Some doc → pages st !! key n = None →
       ∃ cv st',
         loadMissing (key n) st = Normal () st'
         ∧ pages st' !! key n = Some cv
         ∧ tasks st' = tasks st ++ [GetPage doc cv (Some n)])
  ∧ (∀ number st, 0 < number → number + pad ≤ MAX_SAFE_INTEGER →
       ∃ new,
         tasks (after (loadPage number st)) = tasks st ++ new
         ∧ Forall (λ t, ∃ doc cv k,
                     t = GetPage doc cv (Some k)
                     ∧ 0 < k ≤ MAX_SAFE_INTEGER
                     ∧ key k ∈ pageList number (duration st)
                     ∧ pages (after (loadPage number st)) !! key k = Some cv)
             new).
Proof.
  split; [|split].
  - intros n _. rewrite substr_prefix. apply parseInt_Number_toString.
  - intros n doc st _ Hb Hp. eexists _, _.
    split; [by apply loadMissing_missing|]. simpl.
    split; [apply lookup_insert_eq|done].
  - intros number st Hpos Hmax. destruct (book st) as [doc|] eqn:Hb.
    + destruct (loadPage_book number doc st Hb)
        as (ks & new & Hks & Hb1 & Hall & Ht & Hnew & Hnd).
      assert (duration st = numPages doc) as Hd
        by (unfold duration; by rewrite Hb).
      destruct (pageList_numbers number (numPages doc)) as (ks' & Hks' & _ & Hrange).
      rewrite Hks' in Hks.
      assert (ks' = ks) as ->.
      { revert Hks. clear. revert ks.
        induction ks' as [|k ks' IH]; intros [|j ks] H; try done.
        simpl in H. injection H as Hk Hrest%IH. apply string_app_inj in Hk.
        apply Number_toString_inj in Hk. by subst. }
      exists new. split; [exact Ht|].
      eapply Forall_impl; [exact Hnew|]. simpl.
      intros t (cv & k & -> & Hk & _ & Hsome). exists doc, cv, k.
      destruct (Hrange k Hk) as [Hr Hp]. unfold pad in *.
      split; [done|]. split; [lia|]. split; [|done].
      rewrite Hd, Hks'. apply list_elem_of_fmap. by exists k.
    + destruct (loadPage_no_book number st Hb) as [Ht _].
      exists []. by rewrite app_nil_r.
Qed.

End CacheWindow.

Lemma loadPage_twice_witness :
  let st := PdfPlayer.set_canvases (insert 0%nat PdfPlayer.Blank)
              (PdfPlayer.set_domCanvas (λ _, Some 0%nat)
                 (PdfPlayer.set_dialog (λ _, true)
                    (PdfPlayer.set_mediaElement (λ _, true)
                       (PdfPlayer.set_loaded (λ _, true)
                          (PdfPlayer.set_book
                             (λ _, Some {| PdfPlayer.numPages := 10 |})
                             PdfPlayer.constructed))))) in
  let st1 := Eff.after (PdfPlayer.loadPage 9 st) in
  PdfPlayer.loadPage 9 st = Eff.Normal () st1
  ∧ PdfPlayer.loadPage 9 st1 = Eff.Normal () st1.
Proof.
  intros st st1. split; [vm_compute; reflexivity|].
  apply (proj2 (proj2 (loadPage_twice 9 st)) st1). vm_compute. reflexivity.
Defined.

Lemma page_key_round_trip_witness :
  JS.parseInt (JS.substr 4 (PdfPlayer.prefix +:+ JS.Number_toString 7)) = Some 7
  ∧ (∃ cv st',
       PdfPlayer.loadMissing "page7"
         (PdfPlayer.set_book (λ _, Some {| PdfPlayer.numPages := 10 |})
            PdfPlayer.constructed) = Eff.Normal () st'
       ∧ PdfPlayer.pages st' !! "page7" = Some cv
       ∧ PdfPlayer.tasks st'
         = [] ++ [PdfPlayer.GetPage {| PdfPlayer.numPages := 10 |} cv (Some 7)])
  ∧ ∃ new,
      PdfPlayer.tasks
        (Eff.after (PdfPlayer.loadPage 7
           (PdfPlayer.set_book (λ _, Some {| PdfPlayer.numPages := 10 |})
              PdfPlayer.constructed))) = [] ++ new.
Proof.
  destruct page_key_round_trip as (Hparse & Hmiss & Hload). split; [|split].
  - apply Hparse. split; [reflexivity|]. by vm_compute.
  - apply (Hmiss 7 {| PdfPlayer.numPages := 10 |}
             (PdfPlayer.set_book (λ _, Some {| PdfPlayer.numPages := 10 |})
                PdfPlayer.constructed)).
    + split; [reflexivity|]. by vm_compute.
    + reflexivity.
    + reflexivity.
  - destruct (Hload 7 (PdfPlayer.set_book (λ _, Some {| PdfPlayer.numPages := 10 |})
                         PdfPlayer.constructed)) as (new & Hnew & _).
    + reflexivity.
    + by vm_compute.
    + exists new. exact Hnew.
Defined.

(* ================================================================== *)
(** * The page shown and the progress                                  *)
(* ================================================================== *)
Section PageShown.
Import JS Eff PdfPlayer.

Local Abbreviation key k := (prefix +:+ Number_toString k) (only parsing).

(** When [loadPage] completes, the canvas shown is the one cached for the
    requested page, and the progress is as before. *)
Lemma loadPage_shows (number : Z) (st st1 : State) :
  loadPage number st = Normal () st1 →
  is_Some (domCanvas st1)
  ∧ domCanvas st1 = pages st1 !! key number
  ∧ progress st1 = progress st.
Proof.
  rewrite loadPage_unfold. simpl.
  destruct (forEach _ loadMissing st) as [[] mid|s] eqn:Hrun; [|discriminate].
  destruct (forEach_loadMissing_normal _ _ _ Hrun) as (Hall & Hsub & Hfr).
  destruct (framed_fields _ _ Hfr) as (_ & _ & Hpm & _).
  destruct (pages mid !! key number) as [c|] eqn:Hc; [|discriminate].
  destruct (domCanvas mid) as [old|]; [|discriminate].
  destruct (forEach_deleteOutside (pageList number (duration st))
              (elements (dom (pages mid))) (set_domCanvas (λ _, Some c) mid))
    as (st' & Hdel & Hst' & Hlook).
  rewrite Hdel. intros [= <-].
  assert (domCanvas st' = Some c) as Hdc by (by rewrite Hst').
  split; [by rewrite Hdc|]. split.
  - rewrite Hdc, Hlook. simpl. rewrite decide_False; [done|].
    intros [_ Hout]. apply Hout.
    destruct (pageList_numbers number (duration st)) as (ks & -> & Hn & _).
    apply list_elem_of_fmap. by exists number.
  - rewrite <- Hpm. by rewrite Hst'.
Qed.

(** [next] and [previous], when they complete, show the page whose number
    is the new progress plus one. *)
Lemma next_shows_progress_plus_one (st st' : State) :
  progress st ≠ duration st - 1 →
  next st = Normal () st' →
  progress st' = progress st + 1
  ∧ is_Some (domCanvas st')
  ∧ domCanvas st' = pages st' !! key (progress st' + 1).
Proof.
  intros Hne. unfold next, mbind, M_bind, gets, modify.
  rewrite (proj2 (Z.eqb_neq _ _) Hne).
  destruct (loadPage (progress st + 2) st) as [[] st1|s] eqn:Hload;
    [|discriminate].
  intros [= <-]. simpl.
  destruct (loadPage_shows _ _ _ Hload) as (Hs & Hd & Hp).
  rewrite Hp. split; [done|]. split; [done|].
  rewrite Hd. do 3 f_equal. lia.
Qed.

Lemma previous_shows_progress_plus_one (st st' : State) :
  progress st ≠ 0 →
  previous st = Normal () st' →
  progress st' = progress st - 1
  ∧ is_Some (domCanvas st')
  ∧ domCanvas st' = pages st' !! key (progress st' + 1).
Proof.
  intros Hne. unfold previous, mbind, M_bind, gets, modify.
  rewrite (proj2 (Z.eqb_neq _ _) Hne).
  destruct (loadPage (progress st) st) as [[] st1|s] eqn:Hload;
    [|discriminate].
  intros [= <-]. simpl.
  destruct (loadPage_shows _ _ _ Hload) as (Hs & Hd & Hp).
  rewrite Hp. split; [done|]. split; [done|].
  rewrite Hd. do 3 f_equal. lia.
Qed.

End PageShown.

(* ================================================================== *)
(** * A document that fails to load                                    *)
(* ================================================================== *)

Section LoadFailure.
Import JS Eff PdfPlayer.

(** What [stop] leaves alone. *)
Lemma stop_frame (st : State) :
  loaded (after (stop st)) = loaded st
  ∧ book (after (stop st)) = book st
  ∧ pages (after (stop st)) = pages st
  ∧ promises (after (stop st)) = promises st
  ∧ tasks (after (stop st)) = tasks st.
Proof.
  unfold stop, unbindEvents, unbindMediaElementEvents, closeDialog,
    mbind, M_bind, mret, M_ret, gets, modify.
  simpl. destruct (mediaElement st) eqn:E; simpl; rewrite ?E; simpl; done.
Qed.

(** The state of a player whose load has failed, as far as the caller of
    [play] can tell: not loaded, without document or cached page, the
    promise of [play] pending and no operation under way. *)
Let failed (st : State) : Prop :=
  loaded st = false ∧ book st = None ∧ pages st = ∅
  ∧ promises st = [Pending] ∧ tasks st = [].

Lemma failed_stop (st : State) : failed st → failed (after (stop st)).
Proof.
  unfold failed. destruct (stop_frame st) as (-> & -> & -> & -> & ->). done.
Qed.

Lemma failed_step (e : Event) (st : State) :
  passive e = true → failed st → ∃ st', step e st = Some st' ∧ failed st'.
Proof.
  intros He Hst. pose proof Hst as (Hl & Hb & Hp & Hpr & Ht).
  destruct e as [o| | | |key|touches| | |i|i doc|i]; try discriminate He; simpl.
  - eexists. split; [reflexivity|]. by apply failed_stop.
  - eexists. split; [reflexivity|]. destruct (keyup (listeners st)); [|done].
    unfold onWindowKeyUp, mbind, M_bind, gets. by rewrite Hl.
  - eexists. split; [reflexivity|]. destruct (touchstart (listeners st)); [|done].
    unfold onTouchStart, mbind, M_bind, gets. by rewrite Hl.
  - eexists. split; [reflexivity|]. destruct (close (listeners st)); [|done].
    by apply failed_stop.
  - eexists. split; [reflexivity|].
    destruct (dialog st && exitClick (listeners st)); [|done].
    by apply failed_stop.
  - rewrite Ht. simpl. by exists st.
  - rewrite Ht. simpl. by exists st.
  - eexists. split; [reflexivity|]. unfold failed, removeTask. simpl.
    by rewrite Ht.
Qed.

Lemma failed_run (evs : list Event) (st : State) :
  forallb passive evs = true → failed st →
  ∃ st', run evs st = Some st' ∧ failed st'.
Proof.
  revert st. induction evs as [|e evs IH]; intros st Hevs Hst.
  - by exists st.
  - simpl in Hevs. apply andb_true_iff in Hevs as [He Hevs].
    destruct (failed_step e st He Hst) as (st1 & Hstep & Hst1).
    destruct (IH st1 Hevs Hst1) as (st' & Hrun & Hst').
    exists st'. split; [|done]. simpl. by rewrite Hstep.
Qed.

(** C8.  The host plays an item on a new player and the download of the
    document fails.  The failure runs no code of the player: the state is
    as before, less the download.  The player is then not loaded, holds
    no document and no cached page, the promise that [play] returned is
    pending and no operation is under way, so no second download; and it
    stays so whatever the user does and whenever the host calls [stop]. *)
Theorem load_failure_stays_pending (options : Options) (it : Item)
    (evs : list Event) :
  head (items options) = Some it →
  forallb passive evs = true →
  ∃ st0 st,
    run [CallPlay options; Fulfilled 0] constructed = Some st0
    ∧ tasks st0 = [GetDocument 0 options]
    ∧ promises st0 = [Pending]
    ∧ step (Failed 0) st0 = Some (removeTask 0 st0)
    ∧ run (Failed 0 :: evs) st0 = Some st
    ∧ loaded st = false
    ∧ book st = None
    ∧ pages st = ∅
    ∧ promises st = [Pending]
    ∧ tasks st = [].
Proof.
  intros Hit Hevs. destruct options as [its ticks]. simpl in Hit.
  destruct its as [|it' rest]; [discriminate|]. injection Hit as ->.
  set (options := {| items := it :: rest; startPositionTicks := ticks |}).
  assert (∃ st0, run [CallPlay options; Fulfilled 0] constructed = Some st0
                 ∧ tasks st0 = [GetDocument 0 options]
                 ∧ promises st0 = [Pending]
                 ∧ failed (removeTask 0 st0)) as (st0 & Hrun & Ht & Hp & Hf).
  { eexists. split; [vm_compute; reflexivity|]. by vm_compute. }
  destruct (failed_run evs (removeTask 0 st0) Hevs Hf) as (st & Hst & Hfs).
  exists st0, st. split; [exact Hrun|]. split; [exact Ht|].
  split; [exact Hp|]. split; [reflexivity|]. split; [exact Hst|]. exact Hfs.
Qed.

End LoadFailure.

Lemma load_failure_stays_pending_witness :
  let it := {| PdfPlayer.Id := "42"; PdfPlayer.ServerId := "home";
               PdfPlayer.Path := Some "/books/manual.pdf";
               PdfPlayer.MediaType := Some "Book" |} in
  let options := {| PdfPlayer.items := [it];
                    PdfPlayer.startPositionTicks := 0 |} in
  let evs := [PdfPlayer.KeyUp "ArrowRight"; PdfPlayer.DialogClosed;
              PdfPlayer.CallStop] in
  head (PdfPlayer.items options) = Some it
  ∧ forallb PdfPlayer.passive evs = true
  ∧ ∃ st0 st,
      PdfPlayer.run [PdfPlayer.CallPlay options; PdfPlayer.Fulfilled 0]
        PdfPlayer.constructed = Some st0
      ∧ PdfPlayer.run (PdfPlayer.Failed 0 :: evs) st0 = Some st
      ∧ PdfPlayer.loaded st = false
      ∧ PdfPlayer.promises st = [PdfPlayer.Pending].
Proof.
  intros it options evs.
  split; [reflexivity|]. split; [reflexivity|].
  destruct (load_failure_stays_pending options it evs eq_refl eq_refl)
    as (st0 & st & Hrun0 & _ & _ & _ & Hrun & Hl & _ & _ & Hp & _).
  exists st0, st. split; [exact Hrun0|]. split; [exact Hrun|]. by split.
Defined.

(* ================================================================== *)
(** * More on the page cache window                                    *)
(* ================================================================== *)

Section WindowContents.
Import JS Eff PdfPlayer.

Local Abbreviation key k := (prefix +:+ Number_toString k) (only parsing).

Ltac eff := unfold mbind, M_bind, mret, M_ret, gets, modify, throw, spawn.

(** The numbers of the pages in the list of [loadPage]. *)
Lemma pageList_members (number d : Z) :
  ∃ ks : list Z,
    pageList number d = (λ k, key k) <$> ks
    ∧ ∀ k, k ∈ ks ↔ k = number
                    ∨ (number - pad ≤ k < number ∧ 0 < k)
                    ∨ (number < k ≤ number + pad ∧ k < d).
Proof.
  exists (foldl (λ ks i,
                   let ks := if number - i >? 0 then ks ++ [number - i] else ks in
                   if number + i <? d then ks ++ [number + i] else ks)
                [number] (seqZ 1 pad)).
  unfold pageList. change (seqZ 1 pad) with [1; 2]. unfold pad. simpl.
  destruct (Z.gtb_spec (number - 1) 0), (Z.ltb_spec (number + 1) d),
    (Z.gtb_spec (number - 2) 0), (Z.ltb_spec (number + 2) d); simpl;
    (split; [reflexivity|]);
    intros k; rewrite ?elem_of_cons, elem_of_nil; lia.
Qed.

Lemma key_fmap_inj (ks ks' : list Z) :
  (λ k, key k) <$> ks = (λ k, key k) <$> ks' → ks = ks'.
Proof.
  revert ks'. induction ks as [|k ks IH]; intros [|j ks'] H; try done.
  simpl in H. injection H as Hk Hrest%IH. apply string_app_inj in Hk.
  apply Number_toString_inj in Hk. by subst.
Qed.

Lemma pageList_key_elem (number d k : Z) :
  key k ∈ pageList number d
  ↔ k = number ∨ (number - pad ≤ k < number ∧ 0 < k)
    ∨ (number < k ≤ number + pad ∧ k < d).
Proof.
  destruct (pageList_members number d) as (ks & -> & Hks).
  rewrite <- Hks, list_elem_of_fmap. split.
  - intros (j & Hj%key_inj & Hin). by subst.
  - intros Hin. by exists k.
Qed.

(** The loop that loads the missing pages changes the cache, the store of
    canvases and the tasks only, and alters no canvas that exists. *)
Lemma forEach_loadMissing_framed (keys : list string) (st : State) :
  framed st (after (forEach keys loadMissing st))
  ∧ canvases st ⊆ canvases (after (forEach keys loadMissing st)).
Proof.
  revert st. induction keys as [|page keys IH]; intros st.
  - split; [apply framed_refl|done].
  - simpl. unfold mbind, M_bind.
    destruct (pages st !! page) as [cv|] eqn:Hp.
    + rewrite loadMissing_cached by by rewrite Hp. apply IH.
    + unfold loadMissing at 1 3, createCanvas, renderPage. eff. rewrite Hp. simpl.
      assert (canvases st !! fresh (dom (canvases st)) = None) as Hfresh
        by apply not_elem_of_dom, is_fresh.
      destruct (book st) as [doc|].
      * eff. simpl. match goal with |- context [forEach keys loadMissing ?s] =>
          destruct (IH s) as [Hfr Hsub] end.
        split.
        -- eapply framed_trans; [|exact Hfr]. unfold framed.
           unfold set_tasks, set_pages, set_canvases. simpl. reflexivity.
        -- etrans; [|exact Hsub]. simpl. by apply insert_subseteq.
      * simpl. split.
        -- unfold framed, set_tasks, set_pages, set_canvases. simpl.
           reflexivity.
        -- by apply insert_subseteq.
Qed.

Lemma framed_shown (st mid : State) (ps : gmap string nat)
    (dc : option nat) :
  framed st mid →
  set_pages (λ _, ps) (set_domCanvas (λ _, dc) mid)
  = set_tasks (λ _, tasks mid) (set_pages (λ _, ps)
      (set_canvases (λ _, canvases mid) (set_domCanvas (λ _, dc) st))).
Proof.
  unfold framed. destruct st, mid.
  unfold set_tasks, set_pages, set_canvases, set_domCanvas. simpl.
  intros H. injection H; intros; subst; reflexivity.
Qed.

(** [loadPage] changes the cache, the store of canvases, the canvas shown
    and the tasks only, however it completes. *)
Lemma loadPage_framed (number : Z) (st : State) :
  ∃ ps cs dc ts,
    after (loadPage number st)
    = set_tasks (λ _, ts) (set_pages (λ _, ps) (set_canvases (λ _, cs)
        (set_domCanvas (λ _, dc) st)))
    ∧ canvases st ⊆ cs.
Proof.
  rewrite loadPage_unfold. simpl.
  destruct (forEach_loadMissing_framed (pageList number (duration st)) st)
    as [Hfr Hsub].
  assert (∀ mid, framed st mid → canvases st ⊆ canvases mid →
            ∃ ps cs dc ts,
              mid = set_tasks (λ _, ts) (set_pages (λ _, ps)
                      (set_canvases (λ _, cs) (set_domCanvas (λ _, dc) st)))
              ∧ canvases st ⊆ cs) as Hmid.
  { intros mid Hm Hs.
    exists (pages mid), (canvases mid), (domCanvas mid), (tasks mid).
    split; [|done]. rewrite <- (framed_shown st mid _ _ Hm).
    unfold set_pages, set_domCanvas. simpl. by rewrite state_eta. }
  destruct (forEach _ loadMissing st) as [[] mid|s]; simpl in *;
    [|by apply Hmid].
  destruct (pages mid !! key number) as [c|]; [|by apply Hmid].
  destruct (domCanvas mid); [|by apply Hmid].
  destruct (forEach_deleteOutside (pageList number (duration st))
              (elements (dom (pages mid))) (set_domCanvas (λ _, Some c) mid))
    as (st' & -> & Hst' & _).
  simpl. exists (pages st'), (canvases mid), (Some c), (tasks mid).
  split; [|done]. rewrite Hst' at 1. by apply framed_shown.
Qed.

(** X1.  With a document loaded and a canvas in the dialog, [loadPage]
    completes, and the cache then holds exactly: the requested page; the
    one or two pages before it whose number is positive; the one or two
    pages after it whose number is below the page count.  The canvas
    shown is the one cached for the requested page. *)
Theorem loadPage_cache_contents (number : Z) (doc : Document) (st : State) :
  book st = Some doc → is_Some (domCanvas st) →
  ∃ st1,
    loadPage number st = Normal () st1
    ∧ (∀ page, is_Some (pages st1 !! page) → ∃ k, page = key k)
    ∧ (∀ k, is_Some (pages st1 !! key k)
            ↔ k = number
              ∨ (number - pad ≤ k < number ∧ 0 < k)
              ∨ (number < k ≤ number + pad ∧ k < numPages doc))
    ∧ is_Some (domCanvas st1)
    ∧ domCanvas st1 = pages st1 !! key number.
Proof.
  intros Hb Hc.
  destruct (loadPage_window number doc st Hb Hc) as (st1 & Hrun & Hdom & Hs & Hd).
  exists st1. split; [exact Hrun|].
  assert (∀ page, is_Some (pages st1 !! page)
                  ↔ page ∈ pageList number (numPages doc)) as Hin.
  { intros page. by rewrite <- elem_of_dom, Hdom, elem_of_list_to_set. }
  split; [|split; [|done]].
  - intros page Hpage%Hin.
    destruct (pageList_members number (numPages doc)) as (ks & Hks & _).
    rewrite Hks in Hpage. apply list_elem_of_fmap in Hpage as (k & -> & _).
    by exists k.
  - intros k. rewrite Hin. apply pageList_key_elem.
Qed.

(** X2.  A [loadPage] that completes keeps every cached page of its list
    under its key with the canvas it had, removes every cached page that
    is not in the list, and alters no canvas that existed: what a canvas
    held before, it holds after. *)
Theorem loadPage_keeps_and_evicts (number : Z) (st st1 : State) :
  loadPage number st = Normal () st1 →
  (∀ page cv, pages st !! page = Some cv →
     pages st1 !! page
     = if decide (page ∈ pageList number (duration st)) then Some cv else None)
  ∧ canvases st ⊆ canvases st1.
Proof.
  intros Hrun. split.
  - revert Hrun. rewrite loadPage_unfold. simpl.
    destruct (forEach _ loadMissing st) as [[] mid|s] eqn:Hloop; [|discriminate].
    destruct (forEach_loadMissing_normal _ _ _ Hloop) as (_ & Hsub & _).
    destruct (pages mid !! key number) as [c|]; [|discriminate].
    destruct (domCanvas mid); [|discriminate].
    destruct (forEach_deleteOutside (pageList number (duration st))
                (elements (dom (pages mid))) (set_domCanvas (λ _, Some c) mid))
      as (st' & -> & _ & Hlook).
    intros [= <-] page cv Hpage. rewrite Hlook. simpl.
    pose proof (lookup_weaken _ _ _ _ Hpage Hsub) as Hmid.
    destruct (decide (page ∈ pageList number (duration st))) as [Hin|Hout].
    + rewrite decide_False; [done|]. by intros [_ ?].
    + rewrite decide_True; [done|]. split; [|done].
      apply elem_of_elements, elem_of_dom. by rewrite Hmid.
  - destruct (loadPage_framed number st) as (ps & cs & dc & ts & Heq & Hsub).
    rewrite Hrun in Heq. simpl in Heq. by rewrite Heq.
Qed.

(** X3.  However [loadPage] ends, it leaves the progress, the flags, the
    document, the dialog, the item, the listeners, the loading indicator,
    the count of timeupdate events and the promises as they were. *)
Theorem loadPage_frame (number : Z) (st : State) :
  let st1 := after (loadPage number st) in
  progress st1 = progress st
  ∧ loaded st1 = loaded st
  ∧ cancellationToken st1 = cancellationToken st
  ∧ book st1 = book st
  ∧ mediaElement st1 = mediaElement st
  ∧ item st1 = item st
  ∧ dialog st1 = dialog st
  ∧ listeners st1 = listeners st
  ∧ loadingShown st1 = loadingShown st
  ∧ timeupdates st1 = timeupdates st
  ∧ promises st1 = promises st.
Proof.
  intros st1. subst st1.
  destruct (loadPage_framed number st) as (ps & cs & dc & ts & -> & _).
  repeat split.
Qed.

(** X4.  With a document loaded but no canvas in the page, the dialog
    being closed, [loadPage] throws: it has loaded what was missing, so
    that the whole list is cached, and it has evicted nothing and shown
    nothing.  [next] then throws too and leaves the progress as it is. *)
Theorem loadPage_without_canvas (number : Z) (doc : Document) (st : State) :
  book st = Some doc → domCanvas st = None →
  ∃ st1,
    loadPage number st = Throw st1
    ∧ pages st ⊆ pages st1
    ∧ (∀ page, page ∈ pageList number (numPages doc) →
               is_Some (pages st1 !! page))
    ∧ domCanvas st1 = None
    ∧ (progress st ≠ numPages doc - 1 →
       ∃ st2, next st = Throw st2 ∧ progress st2 = progress st).
Proof.
  intros Hb Hc.
  assert (duration st = numPages doc) as Hd by (unfold duration; by rewrite Hb).
  assert (∀ n, ∃ st1, loadPage n st = Throw st1
                      ∧ pages st ⊆ pages st1
                      ∧ (∀ page, page ∈ pageList n (numPages doc) →
                                 is_Some (pages st1 !! page))
                      ∧ domCanvas st1 = None
                      ∧ progress st1 = progress st) as Hthrow.
  { intros n.
    destruct (pageList_members n (numPages doc)) as (ks & Hks & Hmem).
    destruct (forEach_loadMissing_book ks doc st Hb)
      as (mid & new & Hrun & Hfr & Hsub & Hall & _).
    destruct (framed_fields _ _ Hfr) as (_ & Hcm & Hpm & _).
    exists mid. rewrite loadPage_unfold, Hd. simpl. rewrite Hks, Hrun.
    rewrite Hcm, Hc.
    split; [by destruct (pages mid !! key n)|]. split; [done|].
    split; [|done].
    intros page (k & -> & Hk)%list_elem_of_fmap. by apply Hall. }
  destruct (Hthrow number) as (st1 & Hrun & Hsub & Hall & Hdc & _).
  exists st1. repeat (split; [done|]).
  intros Hne. destruct (Hthrow (progress st + 2)) as (st2 & Hrun2 & _ & _ & _ & Hp).
  exists st2. split; [|done].
  unfold next. eff. rewrite Hd, (proj2 (Z.eqb_neq _ _) Hne). by rewrite Hrun2.
Qed.

(** X5.  For a page number of the document, every render that [loadPage]
    requests is for a page of the document, from 1 to the page count, so
    pdf.js fulfils it. *)
Theorem loadPage_requests_pages_of_document (number : Z) (doc : Document)
    (st : State) :
  book st = Some doc → 1 ≤ number ≤ numPages doc →
  ∃ new,
    tasks (after (loadPage number st)) = tasks st ++ new
    ∧ Forall (λ t, ∃ cv k, t = GetPage doc cv (Some k)
                           ∧ 1 ≤ k ≤ numPages doc) new.
Proof.
  intros Hb Hn.
  destruct (loadPage_book number doc st Hb)
    as (ks & new & Hks & _ & _ & Ht & Hnew & _).
  destruct (pageList_members number (numPages doc)) as (ks' & Hks' & Hmem).
  rewrite Hks' in Hks. apply key_fmap_inj in Hks as ->.
  exists new. split; [exact Ht|].
  eapply Forall_impl; [exact Hnew|]. simpl.
  intros t (cv & k & -> & Hk%Hmem & _). exists cv, k. split; [done|].
  unfold pad in Hk. lia.
Qed.

End WindowContents.

Lemma loadPage_cache_contents_witness :
  let st := PdfPlayer.set_canvases (insert 0%nat PdfPlayer.Blank)
              (PdfPlayer.set_domCanvas (λ _, Some 0%nat)
                 (PdfPlayer.set_book (λ _, Some {| PdfPlayer.numPages := 10 |})
                    PdfPlayer.constructed)) in
  ∃ st1,
    PdfPlayer.loadPage 9 st = Eff.Normal () st1
    ∧ ¬ is_Some (PdfPlayer.pages st1 !! "page10")
    ∧ is_Some (PdfPlayer.pages st1 !! "page7").
Proof.
  intros st.
  destruct (loadPage_cache_contents 9 {| PdfPlayer.numPages := 10 |} st)
    as (st1 & Hrun & _ & Hk & _).
  - reflexivity.
  - by exists 0%nat.
  - exists st1. split; [exact Hrun|]. split.
    + intros H. apply (Hk 10) in H. unfold PdfPlayer.pad in H. simpl in H. lia.
    + apply (Hk 7). unfold PdfPlayer.pad. lia.
Defined.

Lemma loadPage_keeps_and_evicts_witness :
  let st := PdfPlayer.set_pages (insert "page1" 5%nat)
              (PdfPlayer.set_canvases (insert 5%nat (PdfPlayer.Painted 1))
                 (PdfPlayer.set_canvases (insert 0%nat PdfPlayer.Blank)
                    (PdfPlayer.set_domCanvas (λ _, Some 0%nat)
                       (PdfPlayer.set_book
                          (λ _, Some {| PdfPlayer.numPages := 10 |})
                          PdfPlayer.constructed)))) in
  let st1 := Eff.after (PdfPlayer.loadPage 4 st) in
  PdfPlayer.loadPage 4 st = Eff.Normal () st1
  ∧ PdfPlayer.pages st1 !! "page1" = None
  ∧ PdfPlayer.canvases st1 !! 5%nat = Some (PdfPlayer.Painted 1).
Proof.
  intros st st1.
  assert (PdfPlayer.loadPage 4 st = Eff.Normal () st1) as Hrun
    by (vm_compute; reflexivity).
  destruct (loadPage_keeps_and_evicts 4 st st1 Hrun) as [Hkeep Hsub].
  split; [exact Hrun|]. split.
  - rewrite (Hkeep "page1" 5%nat); [|reflexivity]. reflexivity.
  - eapply lookup_weaken; [|exact Hsub]. reflexivity.
Defined.

Lemma loadPage_without_canvas_witness :
  let st := PdfPlayer.set_book (λ _, Some {| PdfPlayer.numPages := 10 |})
              PdfPlayer.constructed in
  ∃ st1 st2,
    PdfPlayer.loadPage 1 st = Eff.Throw st1
    ∧ PdfPlayer.next st = Eff.Throw st2
    ∧ PdfPlayer.progress st2 = 0.
Proof.
  intros st.
  destruct (loadPage_without_canvas 1 {| PdfPlayer.numPages := 10 |} st
              eq_refl eq_refl) as (st1 & Hrun & _ & _ & _ & Hnext).
  destruct Hnext as (st2 & Hn & Hp); [discriminate|].
  exists st1, st2. split; [exact Hrun|]. split; [exact Hn|]. exact Hp.
Defined.

Lemma loadPage_requests_pages_of_document_witness :
  let st := PdfPlayer.set_book (λ _, Some {| PdfPlayer.numPages := 10 |})
              PdfPlayer.constructed in
  ∃ new,
    PdfPlayer.tasks (Eff.after (PdfPlayer.loadPage 10 st)) = [] ++ new
    ∧ Forall (λ t, ∃ cv k, t = PdfPlayer.GetPage {| PdfPlayer.numPages := 10 |}
                                 cv (Some k) ∧ 1 ≤ k ≤ 10) new.
Proof.
  intros st.
  apply (loadPage_requests_pages_of_document 10
           {| PdfPlayer.numPages := 10 |} st).
  - reflexivity.
  - simpl. lia.
Defined.

(* ================================================================== *)
(** * Turning pages                                                    *)
(* ================================================================== *)

Section TurningPages.
Import JS Eff PdfPlayer.

Local Abbreviation key k := (prefix +:+ Number_toString k) (only parsing).

Ltac eff := unfold mbind, M_bind, mret, M_ret, gets, modify, throw, spawn.

(** What [loadPage] leaves alone, in the form the proofs below use. *)
Lemma loadPage_after (number : Z) (st : State) :
  progress (after (loadPage number st)) = progress st
  ∧ book (after (loadPage number st)) = book st
  ∧ loaded (after (loadPage number st)) = loaded st
  ∧ promises (after (loadPage number st)) = promises st
  ∧ listeners (after (loadPage number st)) = listeners st
  ∧ mediaElement (after (loadPage number st)) = mediaElement st
  ∧ cancellationToken (after (loadPage number st)) = cancellationToken st.
Proof.
  destruct (loadPage_framed number st) as (ps & cs & dc & ts & -> & _).
  repeat split.
Qed.

Lemma next_after (st : State) :
  after (next st)
  = if progress st =? duration st - 1 then st
    else match loadPage (progress st + 2) st with
         | Normal _ st1 => set_progress (λ p, p + 1) st1
         | Throw st1 => st1
         end.
Proof.
  unfold next. eff. destruct (progress st =? duration st - 1); [done|].
  by destruct (loadPage (progress st + 2) st).
Qed.

Lemma previous_after (st : State) :
  after (previous st)
  = if progress st =? 0 then st
    else match loadPage (progress st) st with
         | Normal _ st1 => set_progress (λ p, p - 1) st1
         | Throw st1 => st1
         end.
Proof.
  unfold previous. eff. destruct (progress st =? 0); [done|].
  by destruct (loadPage (progress st) st).
Qed.

(** X6.  [next] and [previous] keep the progress between 0 and
    [duration() - 1], whichever way they end, and leave the document, so
    the duration, as it is. *)
Theorem navigation_keeps_progress_in_range (st : State) :
  0 ≤ progress st ≤ duration st - 1 →
  (0 ≤ progress (after (next st)) ≤ duration st - 1
   ∧ duration (after (next st)) = duration st)
  ∧ (0 ≤ progress (after (previous st)) ≤ duration st - 1
     ∧ duration (after (previous st)) = duration st).
Proof.
  intros Hr. rewrite next_after, previous_after. split.
  - destruct (Z.eqb_spec (progress st) (duration st - 1)) as [|Hne];
      [split; [exact Hr|reflexivity]|].
    destruct (loadPage_after (progress st + 2) st) as (Hp & Hb & _).
    destruct (loadPage (progress st + 2) st) as [[] st1|st1]; simpl in *;
      (split; [lia|unfold duration; simpl; by rewrite Hb]).
  - destruct (Z.eqb_spec (progress st) 0) as [|Hne];
      [split; [exact Hr|reflexivity]|].
    destruct (loadPage_after (progress st) st) as (Hp & Hb & _).
    destruct (loadPage (progress st) st) as [[] st1|st1]; simpl in *;
      (split; [lia|unfold duration; simpl; by rewrite Hb]).
Qed.

(** X7.  With a document loaded and a canvas in the dialog, [next]
    followed by [previous] completes and comes back: the progress is the
    one before, the page shown is again the page of number progress + 1,
    and the cache is the window of that page. *)
Theorem next_then_previous (doc : Document) (st : State) :
  book st = Some doc → is_Some (domCanvas st) →
  0 ≤ progress st < numPages doc - 1 →
  ∃ st1 st2,
    next st = Normal () st1
    ∧ previous st1 = Normal () st2
    ∧ progress st1 = progress st + 1
    ∧ progress st2 = progress st
    ∧ domCanvas st2 = pages st2 !! key (progress st + 1)
    ∧ dom (pages st2)
      = list_to_set (pageList (progress st + 1) (numPages doc)).
Proof.
  intros Hb Hc Hr.
  assert (duration st = numPages doc) as Hd by (unfold duration; by rewrite Hb).
  destruct (loadPage_window (progress st + 2) doc st Hb Hc)
    as (st1 & Hrun1 & _ & Hs1 & _).
  destruct (loadPage_after (progress st + 2) st) as (Hp1 & Hb1 & _).
  rewrite Hrun1 in Hp1, Hb1. simpl in Hp1, Hb1.
  set (st1' := set_progress (λ p, p + 1) st1).
  assert (book st1' = Some doc) as Hb1' by (simpl; congruence).
  assert (is_Some (domCanvas st1')) as Hc1' by exact Hs1.
  assert (progress st1' = progress st + 1) as Hp1' by (simpl; lia).
  destruct (loadPage_window (progress st1') doc st1' Hb1' Hc1')
    as (st2 & Hrun2 & Hdom2 & _ & Hd2).
  destruct (loadPage_after (progress st1') st1') as (Hp2 & _).
  rewrite Hrun2 in Hp2. simpl in Hp2.
  exists st1', (set_progress (λ p, p - 1) st2).
  split.
  { unfold next. eff. rewrite Hd.
    rewrite (proj2 (Z.eqb_neq (progress st) (numPages doc - 1))) by lia.
    by rewrite Hrun1. }
  split.
  { unfold previous. eff.
    rewrite (proj2 (Z.eqb_neq (progress st1') 0)) by lia.
    by rewrite Hrun2. }
  split; [exact Hp1'|]. split; [simpl in *; lia|].
  rewrite Hp1' in Hd2, Hdom2. split; [exact Hd2|exact Hdom2].
Qed.

End TurningPages.

Lemma navigation_keeps_progress_in_range_witness :
  let st := PdfPlayer.set_progress (λ _, 4)
              (PdfPlayer.set_book (λ _, Some {| PdfPlayer.numPages := 5 |})
                 PdfPlayer.constructed) in
  0 ≤ PdfPlayer.progress st ≤ PdfPlayer.duration st - 1
  ∧ 0 ≤ PdfPlayer.progress (Eff.after (PdfPlayer.next st))
    ≤ PdfPlayer.duration st - 1
  ∧ 0 ≤ PdfPlayer.progress (Eff.after (PdfPlayer.previous st))
    ≤ PdfPlayer.duration st - 1.
Proof.
  intros st.
  assert (0 ≤ PdfPlayer.progress st ≤ PdfPlayer.duration st - 1) as Hr
    by (split; vm_compute; discriminate).
  destruct (navigation_keeps_progress_in_range st Hr) as [[Hn _] [Hp _]].
  split; [exact Hr|]. split; [exact Hn|exact Hp].
Defined.

Lemma next_then_previous_witness :
  let st := PdfPlayer.set_canvases (insert 0%nat PdfPlayer.Blank)
              (PdfPlayer.set_domCanvas (λ _, Some 0%nat)
                 (PdfPlayer.set_book (λ _, Some {| PdfPlayer.numPages := 10 |})
                    PdfPlayer.constructed)) in
  ∃ st1 st2,
    PdfPlayer.next st = Eff.Normal () st1
    ∧ PdfPlayer.previous st1 = Eff.Normal () st2
    ∧ PdfPlayer.progress st2 = 0.
Proof.
  intros st.
  destruct (next_then_previous {| PdfPlayer.numPages := 10 |} st)
    as (st1 & st2 & Hn & Hp & _ & Hp2 & _).
  - reflexivity.
  - by exists 0%nat.
  - simpl. lia.
  - exists st1, st2. split; [exact Hn|]. split; [exact Hp|]. exact Hp2.
Defined.

(* ================================================================== *)
(** * From [play] to a reader who turns pages                          *)
(* ================================================================== *)

Section Reading.
Import JS Eff PdfPlayer.

Local Abbreviation key k := (prefix +:+ Number_toString k) (only parsing).

Ltac eff := unfold mbind, M_bind, mret, M_ret, gets, modify, throw, spawn.

Lemma run_app (evs1 evs2 : list Event) (st : State) :
  run (evs1 ++ evs2) st = run evs1 st ≫= run evs2.
Proof.
  revert st. induction evs1 as [|e evs1 IH]; intros st; [done|].
  simpl. destruct (step e st) as [st'|]; [apply IH|done].
Qed.

(** The player after [play] on a new instance and the import of pdf.js:
    the dialog is open with its first canvas, the listeners are bound and
    the download is under way. *)
Lemma play_then_import (options : Options) (it : Item) :
  head (items options) = Some it →
  ∃ st0,
    run [CallPlay options; Fulfilled 0] constructed = Some st0
    ∧ tasks st0 = [GetDocument 0 options]
    ∧ cancellationToken st0 = false
    ∧ domCanvas st0 = Some 0%nat
    ∧ pages st0 = ∅
    ∧ promises st0 = [Pending]
    ∧ progress st0 = 0
    ∧ listeners st0 = Build_Listeners true true true true
    ∧ loadingShown st0 = true
    ∧ mediaElement st0 = true
    ∧ item st0 = Some it.
Proof.
  intros Hit. destruct options as [its ticks]. simpl in Hit.
  destruct its as [|it' rest]; [discriminate|]. injection Hit as ->.
  eexists. split; [vm_compute; reflexivity|]. by vm_compute.
Qed.

Lemma percentageTicks_multiple (its : list Item) (p : Z) :
  percentageTicks {| items := its; startPositionTicks := 10000 * p |} = Some p.
Proof.
  unfold percentageTicks. cbn [startPositionTicks].
  replace (10000 * p) with (p * 10000) by lia.
  rewrite Z_mod_mult, Z_div_mult by lia. reflexivity.
Qed.

(** The continuation of the download on a player that was not stopped
    and has a canvas in its dialog. *)
Lemma onDocumentLoaded_loads (pid : nat) (pt : Z) (doc : Document)
    (st : State) :
  cancellationToken st = false → is_Some (domCanvas st) →
  promises st !! pid = Some Pending →
  let shown := if pt =? 0 then 1 else pt in
  ∃ st1 st',
    loadPage shown (set_loaded (λ _, true) (set_book (λ _, Some doc) st))
    = Normal () st1
    ∧ onDocumentLoaded pid pt doc st = Normal () st'
    ∧ pages st' = pages st1
    ∧ domCanvas st' = domCanvas st1
    ∧ tasks st' = tasks st1
    ∧ book st' = Some doc
    ∧ loaded st' = true
    ∧ progress st' = (if pt =? 0 then progress st else pt)
    ∧ promises st' = <[pid := Resolved]> (promises st)
    ∧ listeners st' = listeners st.
Proof.
  intros Hc Hdc Hpid shown.
  set (st_ := set_loaded (λ _, true) (set_book (λ _, Some doc) st)).
  destruct (loadPage_window shown doc st_ eq_refl Hdc) as (st1 & Hrun1 & _).
  destruct (loadPage_after shown st_) as (Hp1 & Hb1 & Hl1 & Hpr1 & Hli1 & _).
  rewrite Hrun1 in Hp1, Hb1, Hl1, Hpr1, Hli1. simpl in Hp1, Hb1, Hl1, Hpr1, Hli1.
  exists st1. unfold onDocumentLoaded. eff. rewrite Hc. fold st_.
  subst shown. destruct (pt =? 0); simpl; rewrite Hrun1; simpl;
    (eexists; split; [reflexivity|]; split; [reflexivity|]); simpl;
    rewrite Hpr1, Hpid; simpl; repeat split; done.
Qed.

(** The player after [play], the import and the arrival of the document. *)
Lemma play_then_document (it : Item) (rest : list Item) (p : Z)
    (doc : Document) :
  let options := {| items := it :: rest; startPositionTicks := 10000 * p |} in
  let shown := if p =? 0 then 1 else p in
  ∃ st,
    run [CallPlay options; Fulfilled 0; DocumentFulfilled 0 doc] constructed
    = Some st
    ∧ loaded st = true
    ∧ book st = Some doc
    ∧ progress st = p
    ∧ promises st = [Resolved]
    ∧ is_Some (domCanvas st)
    ∧ domCanvas st = pages st !! key shown
    ∧ dom (pages st) = list_to_set (pageList shown (numPages doc))
    ∧ listeners st = Build_Listeners true true true true
    ∧ Forall (λ t, isRender t = true) (tasks st).
Proof.
  intros options shown.
  destruct (play_then_import options it eq_refl)
    as (st0 & Hrun0 & Ht0 & Hc0 & Hd0 & Hp0 & Hpr0 & Hpg0 & Hl0 & _).
  change [CallPlay options; Fulfilled 0; DocumentFulfilled 0 doc]
    with ([CallPlay options; Fulfilled 0] ++ [DocumentFulfilled 0 doc]).
  rewrite run_app, Hrun0.
  change (Some st0 ≫= run [DocumentFulfilled 0 doc])
    with (step (DocumentFulfilled 0 doc) st0 ≫= λ st, Some st).
  unfold step. rewrite Ht0. cbn [lookup list_lookup].
  unfold options at 1. rewrite percentageTicks_multiple.
  set (st0' := removeTask 0 st0).
  assert (is_Some (domCanvas st0')) as Hdc
    by (change (is_Some (domCanvas st0)); rewrite Hd0; eauto).
  assert (promises st0' !! 0%nat = Some Pending) as Hpid
    by (change (promises st0') with (promises st0); by rewrite Hpr0).
  destruct (onDocumentLoaded_loads 0 p doc st0' Hc0 Hdc Hpid)
    as (st1 & st' & Hrun1 & Hload & Hpg & Hcv & Hts & Hb & Hl & Hp & Hpr & Hli).
  fold shown in Hrun1.
  set (st_ := set_loaded (λ _, true) (set_book (λ _, Some doc) st0')) in *.
  destruct (loadPage_window shown doc st_ eq_refl Hdc)
    as (st1' & Hrun1' & Hdom1 & Hs1 & Hd1).
  rewrite Hrun1 in Hrun1'. injection Hrun1' as <-.
  destruct (loadPage_book shown doc st_ eq_refl)
    as (ks & new & _ & _ & _ & Ht1 & Hnew & _).
  rewrite Hrun1 in Ht1. cbn [after] in Ht1.
  exists st'. cbn [mbind option_bind]. rewrite Hload. cbn [after].
  split; [reflexivity|]. split; [exact Hl|]. split; [exact Hb|].
  split.
  { rewrite Hp. change (progress st0') with (progress st0).
    rewrite Hpg0. by destruct (Z.eqb_spec p 0). }
  split.
  { rewrite Hpr. change (promises st0') with (promises st0).
    by rewrite Hpr0. }
  split; [by rewrite Hcv|]. split; [by rewrite Hcv, Hpg|].
  split; [by rewrite Hpg|]. split.
  { rewrite Hli. change (listeners st0') with (listeners st0). exact Hl0. }
  rewrite Hts, Ht1. change (tasks st_) with (delete 0%nat (tasks st0)).
  rewrite Ht0. cbn [delete list_delete app].
  eapply Forall_impl; [exact Hnew|]. by intros t (cv & k & -> & _).
Qed.

(** X8.  A play cycle that succeeds.  The host plays an item at the
    start position [10000 * p], pdf.js is imported and the document
    arrives: the player is loaded and holds the document, its progress is
    [p], the promise of [play] is resolved, the page shown is page 1 for
    [p = 0] and page [p] otherwise, the cache is the list of [loadPage] for
    that page, the four listeners are bound, and only page requests are
    under way. *)
Theorem play_loads_and_resolves (it : Item) (rest : list Item) (p : Z)
    (doc : Document) :
  let options := {| items := it :: rest; startPositionTicks := 10000 * p |} in
  let shown := if p =? 0 then 1 else p in
  ∃ st,
    run [CallPlay options; Fulfilled 0; DocumentFulfilled 0 doc] constructed
    = Some st
    ∧ loaded st = true
    ∧ book st = Some doc
    ∧ progress st = p
    ∧ promises st = [Resolved]
    ∧ is_Some (domCanvas st)
    ∧ domCanvas st = pages st !! key shown
    ∧ dom (pages st) = list_to_set (pageList shown (numPages doc))
    ∧ listeners st = Build_Listeners true true true true
    ∧ Forall (λ t, isRender t = true) (tasks st).
Proof. apply play_then_document. Qed.


Section WithDocument.

Variable doc : Document.
Hypothesis doc_has_pages : 1 ≤ numPages doc.

(** The state of a reader: the document is loaded, the page shown is the
    page of number progress + 1, the cache is the list of [loadPage] for
    that page, the progress is an index of the document, and only page
    requests and drawings are under way. *)
Let reading (st : State) : Prop :=
  book st = Some doc
  ∧ loaded st = true
  ∧ is_Some (domCanvas st)
  ∧ domCanvas st = pages st !! key (progress st + 1)
  ∧ dom (pages st) = list_to_set (pageList (progress st + 1) (numPages doc))
  ∧ 0 ≤ progress st ≤ numPages doc - 1
  ∧ Forall (λ t, isRender t = true) (tasks st).

Lemma reading_loadPage (number : Z) (st : State) :
  reading st →
  ∃ st1,
    loadPage number st = Normal () st1
    ∧ book st1 = Some doc ∧ loaded st1 = true
    ∧ is_Some (domCanvas st1)
    ∧ domCanvas st1 = pages st1 !! key number
    ∧ dom (pages st1) = list_to_set (pageList number (numPages doc))
    ∧ progress st1 = progress st
    ∧ Forall (λ t, isRender t = true) (tasks st1).
Proof.
  intros (Hb & Hl & Hc & _ & _ & _ & Ht).
  destruct (loadPage_window number doc st Hb Hc) as (st1 & Hrun & Hdom & Hs & Hd).
  destruct (loadPage_after number st) as (Hp1 & Hb1 & Hl1 & _).
  destruct (loadPage_book number doc st Hb)
    as (ks & new & _ & _ & _ & Ht1 & Hnew & _).
  rewrite Hrun in Hp1, Hb1, Hl1, Ht1. simpl in Hp1, Hb1, Hl1, Ht1.
  exists st1. split; [done|]. split; [congruence|]. split; [congruence|].
  repeat (split; [done|]). rewrite Ht1. apply Forall_app. split; [done|].
  eapply Forall_impl; [exact Hnew|]. by intros t (cv & k & -> & _).
Qed.

Lemma reading_next (st : State) : reading st → reading (after (next st)).
Proof.
  intros Hst. pose proof Hst as (Hb & _ & _ & _ & _ & Hr & _).
  rewrite next_after. unfold duration. rewrite Hb.
  destruct (Z.eqb_spec (progress st) (numPages doc - 1)) as [|Hne]; [done|].
  destruct (reading_loadPage (progress st + 2) st Hst)
    as (st1 & -> & Hb1 & Hl1 & Hs1 & Hd1 & Hdom1 & Hp1 & Ht1).
  unfold reading. simpl. rewrite Hp1.
  replace (progress st + 1 + 1) with (progress st + 2) by lia.
  repeat (split; [done|]). split; [lia|done].
Qed.

Lemma reading_previous (st : State) :
  reading st → reading (after (previous st)).
Proof.
  intros Hst. pose proof Hst as (Hb & _ & _ & _ & _ & Hr & _).
  rewrite previous_after.
  destruct (Z.eqb_spec (progress st) 0) as [|Hne]; [done|].
  destruct (reading_loadPage (progress st) st Hst)
    as (st1 & -> & Hb1 & Hl1 & Hs1 & Hd1 & Hdom1 & Hp1 & Ht1).
  unfold reading. simpl. rewrite Hp1.
  replace (progress st - 1 + 1) with (progress st) by lia.
  repeat (split; [done|]). split; [lia|done].
Qed.

Lemma reading_step (e : Event) (st : State) :
  turnsPages e = true → reading st →
  ∃ st', step e st = Some st' ∧ reading st'.
Proof.
  intros He Hst. pose proof Hst as (Hb & Hl & Hc & Hd & Hdom & Hr & Ht).
  destruct e as [o| | | |k|touches| | |i|i d|i]; try discriminate He; simpl.
  - eexists. split; [reflexivity|]. by apply reading_next.
  - eexists. split; [reflexivity|]. by apply reading_previous.
  - eexists. split; [reflexivity|]. destruct (keyup (listeners st)); [|done].
    unfold onWindowKeyUp. eff. rewrite Hl. simpl.
    simpl in He. apply negb_true_iff in He. rewrite He.
    destruct (bool_decide (k ∈ ["l"; "ArrowRight"; "Right"]));
      [by apply reading_next|].
    destruct (bool_decide (k ∈ ["j"; "ArrowLeft"; "Left"]));
      [by apply reading_previous|done].
  - eexists. split; [reflexivity|].
    destruct (touchstart (listeners st)); [|done].
    unfold onTouchStart. eff. rewrite Hl. simpl.
    destruct touches as [[|[] ?]|];
      [done|by apply reading_previous|by apply reading_next|done].
  - destruct (tasks st !! i) as [t|] eqn:Hi; [|by exists st].
    assert (isRender t = true) as Hrender
      by (rewrite Forall_lookup in Ht; by eapply Ht).
    assert (Forall (λ t, isRender t = true) (delete i (tasks st))) as Hdel
      by by apply Forall_delete.
    destruct t as [? ?|? ?|d cv [k|]|cv k]; try discriminate Hrender.
    + destruct ((1 <=? k) && (k <=? numPages d)).
      * eexists. split; [reflexivity|]. unfold onPage, removeTask. eff. simpl.
        unfold reading. simpl. repeat (split; [done|]).
        apply Forall_app. split; [done|]. by constructor.
      * eexists. split; [reflexivity|]. unfold reading, removeTask. simpl.
        by repeat (split; [done|]).
    + eexists. split; [reflexivity|]. unfold reading, removeTask. simpl.
      by repeat (split; [done|]).
    + eexists. split; [reflexivity|]. unfold reading, removeTask. simpl.
      by repeat (split; [done|]).
  - eexists. split; [reflexivity|]. unfold reading, removeTask. simpl.
    repeat (split; [done|]). by apply Forall_delete.
Qed.

Lemma reading_run (evs : list Event) (st : State) :
  forallb turnsPages evs = true → reading st →
  ∃ st', run evs st = Some st' ∧ reading st'.
Proof.
  revert st. induction evs as [|e evs IH]; intros st Hevs Hst.
  - by exists st.
  - simpl in Hevs. apply andb_true_iff in Hevs as [He Hevs].
    destruct (reading_step e st He Hst) as (st1 & Hstep & Hst1).
    destruct (IH st1 Hevs Hst1) as (st' & Hrun & Hst').
    exists st'. split; [|done]. simpl. by rewrite Hstep.
Qed.

(** X9.  A reader of a document of at least one page who started at the
    first page.  After [play] at position 0, the import and the download,
    and then any calls of [next] and [previous], keys other than Escape,
    touches, and page requests and drawings that settle or fail: the
    document is loaded, the progress is an index of the document, the
    page shown is the page of number progress + 1, and the cache is exactly
    the list of [loadPage] for that page. *)
Theorem reader_sees_page_of_progress (it : Item) (rest : list Item)
    (evs : list Event) :
  forallb turnsPages evs = true →
  ∃ st,
    run ([CallPlay {| items := it :: rest; startPositionTicks := 0 |};
          Fulfilled 0; DocumentFulfilled 0 doc] ++ evs) constructed = Some st
    ∧ book st = Some doc
    ∧ loaded st = true
    ∧ 0 ≤ progress st ≤ numPages doc - 1
    ∧ is_Some (domCanvas st)
    ∧ domCanvas st = pages st !! key (progress st + 1)
    ∧ dom (pages st)
      = list_to_set (pageList (progress st + 1) (numPages doc)).
Proof.
  intros Hevs.
  destruct (play_then_document it rest 0 doc)
    as (st0 & Hrun0 & Hl & Hb & Hp & _ & Hs & Hd & Hdom & _ & Ht).
  change (10000 * 0) with 0 in Hrun0.
  change (if 0 =? 0 then 1 else 0) with 1 in Hd, Hdom.
  assert (reading st0) as Hst0.
  { unfold reading. rewrite Hp. repeat (split; [done|]). split; [lia|done]. }
  destruct (reading_run evs st0 Hevs Hst0)
    as (st & Hrun & Hb' & Hl' & Hs' & Hd' & Hdom' & Hr' & _).
  exists st. rewrite run_app, Hrun0. by repeat (split; [done|]).
Qed.

End WithDocument.

End Reading.

Lemma reader_sees_page_of_progress_witness :
  let doc := {| PdfPlayer.numPages := 3 |} in
  let it := {| PdfPlayer.Id := "42"; PdfPlayer.ServerId := "home";
               PdfPlayer.Path := Some "/books/manual.pdf";
               PdfPlayer.MediaType := Some "Book" |} in
  let evs := [PdfPlayer.KeyUp "ArrowRight"; PdfPlayer.Fulfilled 0;
              PdfPlayer.TouchStart (Some [false]); PdfPlayer.CallNext;
              PdfPlayer.KeyUp "j"] in
  1 ≤ PdfPlayer.numPages doc
  ∧ forallb PdfPlayer.turnsPages evs = true
  ∧ ∃ st,
      PdfPlayer.run
        ([PdfPlayer.CallPlay {| PdfPlayer.items := [it];
                                PdfPlayer.startPositionTicks := 0 |};
          PdfPlayer.Fulfilled 0; PdfPlayer.DocumentFulfilled 0 doc] ++ evs)
        PdfPlayer.constructed = Some st
      ∧ 0 ≤ PdfPlayer.progress st ≤ PdfPlayer.numPages doc - 1.
Proof.
  intros doc it evs.
  assert (1 ≤ PdfPlayer.numPages doc) as Hdoc by (simpl; lia).
  split; [exact Hdoc|]. split; [reflexivity|].
  destruct (reader_sees_page_of_progress doc Hdoc it [] evs eq_refl)
    as (st & Hrun & _ & _ & Hr & _).
  exists st. split; [exact Hrun|exact Hr].
Defined.

(* ================================================================== *)
(** * Stopping                                                         *)
(* ================================================================== *)

Section Stopping.
Import JS Eff PdfPlayer.

Ltac eff := unfold mbind, M_bind, mret, M_ret, gets, modify, throw, spawn.

(** [stop] in one step. *)
Lemma stop_unfold (st : State) :
  stop st
  = Normal ()
      (set_cancellationToken (λ _, true)
         (set_loadingShown (λ _, false)
            (if mediaElement st
             then set_mediaElement (λ _, false)
                    (set_domCanvas (λ _, None)
                       (set_dialog (λ _, false)
                          (set_listeners
                             (λ _, Build_Listeners false false false false)
                             st)))
             else set_listeners
                    (λ l, Build_Listeners false false (close l) (exitClick l))
                    st))).
Proof.
  unfold stop, unbindEvents, unbindMediaElementEvents, closeDialog. eff.
  simpl. destruct (mediaElement st) eqn:E; simpl; rewrite ?E; reflexivity.
Qed.

(** X10.  [stop] never throws.  It sets the cancellation flag, hides the
    loading indicator, unbinds the key and touch listeners and forgets the
    dialog; when it held the dialog it also unbinds the two listeners of
    the dialog and closes it.  It keeps the cache, the canvases, the
    document, the loaded flag, the progress, the pending operations and
    the promises as they are. *)
Theorem stop_effect (st : State) :
  ∃ st',
    stop st = Normal () st'
    ∧ cancellationToken st' = true
    ∧ loadingShown st' = false
    ∧ mediaElement st' = false
    ∧ keyup (listeners st') = false
    ∧ touchstart (listeners st') = false
    ∧ (mediaElement st = true →
       close (listeners st') = false ∧ exitClick (listeners st') = false
       ∧ dialog st' = false ∧ domCanvas st' = None)
    ∧ pages st' = pages st
    ∧ canvases st' = canvases st
    ∧ book st' = book st
    ∧ loaded st' = loaded st
    ∧ progress st' = progress st
    ∧ tasks st' = tasks st
    ∧ promises st' = promises st.
Proof.
  rewrite stop_unfold. eexists. split; [reflexivity|].
  destruct (mediaElement st) eqn:E; simpl; rewrite ?E;
    repeat split; try done; discriminate.
Qed.

(** X11.  A second [stop] changes nothing. *)
Theorem stop_idempotent (st : State) :
  stop (after (stop st)) = Normal () (after (stop st)).
Proof.
  rewrite !stop_unfold. simpl. destruct st. simpl.
  destruct mediaElement0; simpl; [reflexivity|].
  by destruct listeners0.
Qed.


(** [play] in one step: the fields are reset, the dialog is found or
    made, then the item is taken. *)
Lemma play_unfold (options : Options) (st : State) :
  play options st
  = let st1 := set_loadingShown (λ _, true)
                 (set_pages (λ _, ∅)
                    (set_cancellationToken (λ _, false)
                       (set_loaded (λ _, false)
                          (set_progress (λ _, 0) st)))) in
    let st2 :=
      if mediaElement st then st1
      else set_mediaElement (λ _, true)
             (if dialog st then st1
              else set_dialog (λ _, true)
                     (set_domCanvas (λ _, Some (fresh (dom (canvases st))))
                        (set_canvases
                           (insert (fresh (dom (canvases st))) Blank) st1))) in
    match head (items options) with
    | Some it =>
        Normal (length (promises st))
          (set_tasks (λ ts, ts ++ [ImportPdfjs (length (promises st)) options])
             (set_promises (λ ps, ps ++ [Pending])
                (set_item (λ _, Some it) st2)))
    | None => Throw (set_item (λ _, None) st2)
    end.
Proof.
  unfold play, createMediaElement, setCurrentSrc, newPromise, createCanvas.
  eff. simpl.
  destruct (mediaElement st) eqn:Em, (dialog st) eqn:Ed,
    (head (items options)); simpl; rewrite ?Em, ?Ed; reflexivity.
Qed.

(** ** What no event undoes *)

(** The listeners of the dialog are bound only while the player holds the
    dialog. *)
Let tidy (st : State) : Prop :=
  mediaElement st = false →
  close (listeners st) = false ∧ exitClick (listeners st) = false.

(** How the promises of one state become those of a later one: not at
    all, by a new pending promise, or by a pending promise that is
    resolved. *)
Let grows (ps ps' : list Outcome) : Prop :=
  ps' = ps ∨ ps' = ps ++ [Pending]
  ∨ ∃ pid, ps !! pid = Some Pending ∧ ps' = <[pid := Resolved]> ps.

Let keeps (st st' : State) : Prop :=
  (tidy st → tidy st') ∧ grows (promises st) (promises st').

Lemma keeps_same (st st' : State) :
  mediaElement st' = mediaElement st → listeners st' = listeners st →
  promises st' = promises st → keeps st st'.
Proof.
  intros Hm Hl Hp. split.
  - unfold tidy. by rewrite Hm, Hl.
  - left. exact Hp.
Qed.

Lemma keeps_refl (st : State) : keeps st st.
Proof. by apply keeps_same. Qed.

Lemma keeps_loadPage (number : Z) (st : State) :
  keeps st (after (loadPage number st)).
Proof.
  destruct (loadPage_after number st) as (_ & _ & _ & Hp & Hl & Hm & _).
  by apply keeps_same.
Qed.

Lemma keeps_next (st : State) : keeps st (after (next st)).
Proof.
  rewrite next_after. destruct (progress st =? duration st - 1);
    [apply keeps_refl|].
  pose proof (keeps_loadPage (progress st + 2) st) as H.
  by destruct (loadPage (progress st + 2) st).
Qed.

Lemma keeps_previous (st : State) : keeps st (after (previous st)).
Proof.
  rewrite previous_after. destruct (progress st =? 0); [apply keeps_refl|].
  pose proof (keeps_loadPage (progress st) st) as H.
  by destruct (loadPage (progress st) st).
Qed.

Lemma keeps_stop (st : State) : keeps st (after (stop st)).
Proof.
  rewrite stop_unfold. split.
  - unfold tidy. destruct (mediaElement st); simpl; [done|]. by intros H _; apply H.
  - left. by destruct (mediaElement st).
Qed.

Lemma keeps_play (options : Options) (st : State) :
  keeps st (after (play options st)).
Proof.
  rewrite play_unfold. cbv zeta.
  destruct (head (items options)); simpl; split;
    try (intros _; unfold tidy; simpl;
         destruct (mediaElement st) eqn:Em; simpl; rewrite ?Em; discriminate).
  - right. left. by destruct (mediaElement st), (dialog st).
  - left. by destruct (mediaElement st), (dialog st).
Qed.

Lemma keeps_onPdfjsImported (pid i : nat) (options : Options) (st : State) :
  keeps st (after (onPdfjsImported pid options (removeTask i st))).
Proof.
  unfold onPdfjsImported, bindEvents, bindMediaElementEvents. eff. simpl.
  destruct (mediaElement st) eqn:Em; simpl.
  - split; [|by left]. intros _. unfold tidy. simpl. by rewrite Em.
  - by apply keeps_same.
Qed.

Lemma keeps_onDocumentLoaded (pid i : nat) (pt : Z) (doc : Document)
    (st : State) :
  keeps st (after (onDocumentLoaded pid pt doc (removeTask i st))).
Proof.
  unfold onDocumentLoaded. eff. simpl.
  destruct (cancellationToken st); [by apply keeps_same|].
  set (st_ := set_loaded _ _).
  assert (∀ number, ∃ st1,
            after (loadPage number st_) = st1
            ∧ mediaElement st1 = mediaElement st
            ∧ listeners st1 = listeners st
            ∧ promises st1 = promises st) as Hload.
  { intros number. eexists. split; [reflexivity|].
    destruct (loadPage_after number st_) as (_ & _ & _ & Hp & Hl & Hm & _).
    by rewrite Hp, Hl, Hm. }
  assert (∀ st1, mediaElement st1 = mediaElement st →
                 listeners st1 = listeners st →
                 promises st1 = promises st →
                 keeps st (after (resolve pid st1))) as Hresolve.
  { intros st1 Hm Hl Hp. unfold resolve, modify. simpl. split.
    - unfold tidy. simpl. by rewrite Hm, Hl.
    - simpl. rewrite Hp.
      destruct (promises st !! pid) as [[| |]|] eqn:Hpid; try by left.
      right. right. by exists pid. }
  destruct (negb (pt =? 0)); simpl.
  - destruct (Hload pt) as (st1 & Hafter & Hm & Hl & Hp).
    destruct (loadPage pt st_) as [[] st1'|st1']; simpl in *; subst st1'.
    + by apply Hresolve.
    + by apply keeps_same.
  - destruct (Hload 1) as (st1 & Hafter & Hm & Hl & Hp).
    destruct (loadPage 1 st_) as [[] st1'|st1']; simpl in *; subst st1'.
    + by apply Hresolve.
    + by apply keeps_same.
Qed.

Lemma keeps_trans (st1 st2 st3 : State) :
  tidy st1 →
  keeps st1 st2 → keeps st2 st3 → tidy st3.
Proof. intros H1 [H12 _] [H23 _]. auto. Qed.

Lemma keeps_step (e : Event) (st st' : State) :
  step e st = Some st' → keeps st st'.
Proof.
  destruct e as [o| | | |key|touches| | |i|i doc|i]; simpl.
  - intros [= <-]. apply keeps_play.
  - intros [= <-]. apply keeps_stop.
  - intros [= <-]. apply keeps_next.
  - intros [= <-]. apply keeps_previous.
  - intros [= <-]. destruct (keyup (listeners st)); [|apply keeps_refl].
    unfold onWindowKeyUp. eff. destruct (loaded st); simpl; [|apply keeps_refl].
    repeat case_bool_decide;
      first [apply keeps_next|apply keeps_previous|apply keeps_stop
            |apply keeps_refl].
  - intros [= <-]. destruct (touchstart (listeners st)); [|apply keeps_refl].
    unfold onTouchStart. eff. destruct (loaded st); simpl; [|apply keeps_refl].
    destruct touches as [[|[] ?]|];
      first [apply keeps_next|apply keeps_previous|apply keeps_refl].
  - intros [= <-]. unfold onDialogClosed, closeDialog. eff. simpl.
    destruct (close (listeners st)) eqn:Ec; [|by apply keeps_same].
    rewrite stop_unfold. simpl. split.
    + intros Ht. unfold tidy.
      destruct (mediaElement st) eqn:Em; simpl; [done|].
      intros _. destruct (Ht Em) as [Hc He]. rewrite ?Hc, ?He.
      done || congruence.
    + left. by destruct (mediaElement st).
  - intros [= <-]. unfold onDialogClosed.
    destruct (dialog st && exitClick (listeners st)); [|apply keeps_refl].
    rewrite stop_unfold. simpl. split.
    + intros Ht. unfold tidy.
      destruct (mediaElement st) eqn:Em; simpl; [done|].
      intros _. destruct (Ht Em) as [Hc He]. rewrite ?Hc, ?He.
      done || congruence.
    + left. by destruct (mediaElement st).
  - destruct (tasks st !! i) as [[pid o|pid o|d cv [k|]|cv k]|];
      try (intros [= <-]; apply keeps_refl).
    + intros [= <-]. apply keeps_onPdfjsImported.
    + destruct ((1 <=? k) && (k <=? numPages d)); intros [= <-];
        by apply keeps_same.
    + intros [= <-]. by apply keeps_same.
    + intros [= <-]. by apply keeps_same.
  - destruct (tasks st !! i) as [[pid o|pid o|d cv n|cv k]|];
      try (intros [= <-]; apply keeps_refl).
    destruct (percentageTicks o) as [pt|]; [|discriminate]. simpl.
    intros [= <-]. apply keeps_onDocumentLoaded.
  - intros [= <-]. by apply keeps_same.
Qed.

Lemma tidy_run (evs : list Event) (st st' : State) :
  run evs st = Some st' → tidy st → tidy st'.
Proof.
  revert st. induction evs as [|e evs IH]; intros st; simpl.
  - by intros [= <-].
  - destruct (step e st) as [st1|] eqn:Hstep; [|discriminate]. simpl.
    intros Hrun Hst. apply (IH st1 Hrun).
    by apply (keeps_step e st st1 Hstep).
Qed.

(** X12.  Whatever has happened to a player since its construction, once
    [stop] has run none of its four listeners is bound: keys, touches
    and clicks on the exit button leave the player as it is. *)
Theorem stopped_player_ignores_input (evs : list Event) (st : State) :
  run evs constructed = Some st →
  let st' := after (stop st) in
  listeners st' = Build_Listeners false false false false
  ∧ (∀ key, step (KeyUp key) st' = Some st')
  ∧ (∀ touches, step (TouchStart touches) st' = Some st')
  ∧ step ExitClicked st' = Some st'.
Proof.
  intros Hrun st'.
  assert (tidy st) as Htidy by (by apply (tidy_run evs constructed st Hrun)).
  assert (listeners st' = Build_Listeners false false false false) as Hl.
  { subst st'. rewrite stop_unfold. simpl.
    destruct (mediaElement st) eqn:Em; simpl; [done|].
    destruct (Htidy Em) as [-> ->]. done. }
  split; [exact Hl|]. simpl. rewrite Hl. simpl.
  rewrite andb_false_r. done.
Qed.

(** X13.  No event rejects a promise of [play] or takes a resolution
    back: from any state, a promise that is resolved stays resolved, the
    promises stay free of a rejected one, and none is dropped. *)
Theorem promises_only_resolve (evs : list Event) (st st' : State) :
  run evs st = Some st' →
  (∀ pid, promises st !! pid = Some Resolved →
          promises st' !! pid = Some Resolved)
  ∧ (Rejected ∉ promises st → Rejected ∉ promises st')
  ∧ (length (promises st) ≤ length (promises st'))%nat.
Proof.
  revert st. induction evs as [|e evs IH]; intros st; simpl.
  - by intros [= <-].
  - destruct (step e st) as [st1|] eqn:Hstep; [|discriminate]. simpl.
    intros Hrun. destruct (IH st1 Hrun) as (Hres & Hrej & Hlen).
    destruct (keeps_step e st st1 Hstep) as [_ Hg].
    destruct Hg as [Heq|[Heq|(pid & Hpid & Heq)]]; rewrite Heq in *.
    + done.
    + split; [|split].
      * intros p Hp. apply Hres. by apply lookup_app_l_Some.
      * intros Hn. apply Hrej. rewrite elem_of_app, list_elem_of_singleton.
        by intros [?|?].
      * rewrite length_app in Hlen. lia.
    + split; [|split].
      * intros p Hp. apply Hres, list_lookup_insert_Some.
        destruct (decide (pid = p)) as [->|Hne]; [|by right].
        left. split; [done|]. split; [done|]. by eapply lookup_lt_Some.
      * intros Hn. apply Hrej. intros Hin.
        apply list_elem_of_lookup in Hin as [p Hp].
        apply list_lookup_insert_Some in Hp as [(_ & ? & _)|[_ Hp]]; [done|].
        apply Hn. by eapply list_elem_of_lookup_2.
      * by rewrite length_insert in Hlen.
Qed.

End Stopping.

Lemma stop_effect_witness :
  let st := PdfPlayer.set_pages (insert "page1" 1%nat)
              (PdfPlayer.set_mediaElement (λ _, true) PdfPlayer.constructed) in
  ∃ st',
    PdfPlayer.stop st = Eff.Normal () st'
    ∧ PdfPlayer.domCanvas st' = None
    ∧ PdfPlayer.pages st' !! "page1" = Some 1%nat.
Proof.
  intros st.
  destruct (stop_effect st)
    as (st' & Hrun & _ & _ & _ & _ & _ & Hd & Hp & _).
  exists st'. split; [exact Hrun|]. split.
  - apply Hd. reflexivity.
  - rewrite Hp. reflexivity.
Defined.

Lemma stopped_player_ignores_input_witness :
  let it := {| PdfPlayer.Id := "42"; PdfPlayer.ServerId := "home";
               PdfPlayer.Path := Some "/books/manual.pdf";
               PdfPlayer.MediaType := Some "Book" |} in
  let evs := [PdfPlayer.CallPlay {| PdfPlayer.items := [it];
                                    PdfPlayer.startPositionTicks := 0 |};
              PdfPlayer.Fulfilled 0] in
  ∃ st,
    PdfPlayer.run evs PdfPlayer.constructed = Some st
    ∧ PdfPlayer.step (PdfPlayer.KeyUp "ArrowRight")
        (Eff.after (PdfPlayer.stop st))
      = Some (Eff.after (PdfPlayer.stop st)).
Proof.
  intros it evs.
  assert (∃ st, PdfPlayer.run evs PdfPlayer.constructed = Some st)
    as [st Hrun] by (eexists; vm_compute; reflexivity).
  exists st. split; [exact Hrun|].
  apply (stopped_player_ignores_input evs st Hrun).
Defined.

Lemma promises_only_resolve_witness :
  let it := {| PdfPlayer.Id := "42"; PdfPlayer.ServerId := "home";
               PdfPlayer.Path := Some "/books/manual.pdf";
               PdfPlayer.MediaType := Some "Book" |} in
  let st := PdfPlayer.set_promises (λ _, [PdfPlayer.Resolved])
              PdfPlayer.constructed in
  let evs := [PdfPlayer.CallPlay {| PdfPlayer.items := [it];
                                    PdfPlayer.startPositionTicks := 0 |};
              PdfPlayer.CallStop] in
  ∃ st',
    PdfPlayer.run evs st = Some st'
    ∧ PdfPlayer.promises st' !! 0%nat = Some PdfPlayer.Resolved.
Proof.
  intros it st evs.
  assert (∃ st', PdfPlayer.run evs st = Some st')
    as [st' Hrun] by (eexists; vm_compute; reflexivity).
  exists st'. split; [exact Hrun|].
  apply (proj1 (promises_only_resolve evs st st' Hrun)). reflexivity.
Defined.

(* ================================================================== *)
(** * Play cycles that do not load                                     *)
(* ================================================================== *)

Section NotLoading.
Import JS Eff PdfPlayer.

(** X14.  [play] without an item throws, once it has reset the player,
    shown the loading indicator and found or opened the dialog: the
    indicator stays shown, no promise is made and nothing is requested. *)
Theorem play_without_items (options : Options) (st : State) :
  items options = [] →
  ∃ st',
    play options st = Throw st'
    ∧ item st' = None
    ∧ loadingShown st' = true
    ∧ mediaElement st' = true
    ∧ (mediaElement st = false → dialog st' = true)
    ∧ progress st' = 0
    ∧ loaded st' = false
    ∧ cancellationToken st' = false
    ∧ pages st' = ∅
    ∧ promises st' = promises st
    ∧ tasks st' = tasks st
    ∧ listeners st' = listeners st.
Proof.
  intros Hitems. rewrite play_unfold. cbv zeta. rewrite Hitems. simpl.
  eexists. split; [reflexivity|].
  destruct (mediaElement st) eqn:Em, (dialog st) eqn:Ed; simpl;
    rewrite ?Em, ?Ed; repeat split; try done; discriminate.
Qed.



End NotLoading.

Lemma play_without_items_witness :
  ∃ st',
    PdfPlayer.play {| PdfPlayer.items := []; PdfPlayer.startPositionTicks := 0 |}
      PdfPlayer.constructed = Eff.Throw st'
    ∧ PdfPlayer.loadingShown st' = true
    ∧ PdfPlayer.dialog st' = true.
Proof.
  destruct (play_without_items
              {| PdfPlayer.items := []; PdfPlayer.startPositionTicks := 0 |}
              PdfPlayer.constructed eq_refl)
    as (st' & Hrun & _ & Hl & _ & Hd & _).
  exists st'. split; [exact Hrun|]. split; [exact Hl|]. apply Hd. reflexivity.
Defined.



(* ================================================================== *)
(** * What the player accepts                                          *)
(* ================================================================== *)

Section Accepting.
Import JS PdfPlayer.

Lemma length_append (s t : string) :
  String.length (s +:+ t) = (String.length s + String.length t)%nat.
Proof. induction s as [|c s IH]; simpl; [done|]. by rewrite IH. Qed.

Lemma substr_append (s t : string) : substr (String.length s) (s +:+ t) = t.
Proof. induction s as [|c s IH]; simpl; [by destruct t|exact IH]. Qed.

Lemma endsWith_append (s t : string) : endsWith (s +:+ t) t = true.
Proof.
  unfold endsWith. rewrite length_append. apply andb_true_iff. split.
  - apply Nat.leb_le. lia.
  - replace (String.length s + String.length t - String.length t)%nat
      with (String.length s) by lia.
    rewrite substr_append. apply String.eqb_refl.
Qed.

(** X17.  [canPlayItem] accepts exactly the items whose path ends with
    the three letters pdf, in lower case and with or without a dot before
    them; an item without a path is refused. *)
Theorem canPlayItem_iff (it : Item) :
  canPlayItem it = true ↔ ∃ pre, Path it = Some (pre +:+ "pdf").
Proof.
  unfold canPlayItem. split.
  - destruct (Path it) as [path|]; [|discriminate].
    destruct (negb (String.eqb path EmptyString) && endsWith path "pdf")
      eqn:E; [|discriminate].
    intros _. apply andb_true_iff in E as [_ E].
    destruct (endsWith_suffix _ _ E) as [pre ->]. by exists pre.
  - intros [pre ->]. rewrite endsWith_append.
    by destruct pre.
Qed.

(** X18.  For a media type made of ASCII characters, [canPlayMediaType]
    answers, and it accepts exactly the four-letter media types that spell
    book in some mix of upper and lower case; an absent or empty media
    type is refused. *)
Theorem canPlayMediaType_iff (mediaType : option string) :
  isASCII (default EmptyString mediaType) = true →
  ∃ b, canPlayMediaType mediaType = Some b
       ∧ (b = true ↔ ∃ t, mediaType = Some t ∧ spellsBook t).
Proof. apply canPlayMediaType_ASCII. Qed.

End Accepting.

Lemma canPlayMediaType_iff_witness :
  JS.isASCII "BooK" = true
  ∧ ∃ b, PdfPlayer.canPlayMediaType (Some "BooK") = Some b
         ∧ (b = true
            ↔ ∃ t, Some "BooK" = Some t ∧ PdfPlayer.spellsBook t).
Proof.
  split; [reflexivity|].
  apply (canPlayMediaType_iff (Some "BooK")). reflexivity.
Defined.

(* ================================================================== *)
(** * The collapse element after its attachment                        *)
(* ================================================================== *)

Section Collapsing.
Import JS Eff EmbyCollapse.

Variable offsetHeight : Content → Z.

Ltac eff := unfold mbind, M_bind, mret, M_ret, gets, modify, throw.

Lemma contains_add_other (c d : string) (l : list string) :
  c ≠ d → contains (add c l) d = contains l d.
Proof.
  intros Hne. unfold add, contains. destruct (bool_decide (c ∈ l)); [done|].
  apply bool_decide_ext. rewrite elem_of_app, list_elem_of_singleton.
  split; [|by left]. intros [?|?]; [done|]. by subst.
Qed.

Lemma contains_remove (c : string) (l : list string) :
  contains (remove c l) c = false.
Proof.
  unfold remove, contains. apply bool_decide_eq_false.
  rewrite list_elem_of_filter. by intros [? _].
Qed.

Lemma contains_remove_other (c d : string) (l : list string) :
  c ≠ d → contains (remove c l) d = contains l d.
Proof.
  intros Hne. unfold remove, contains. apply bool_decide_ext.
  rewrite list_elem_of_filter. split; [by intros [_ ?]|].
  intros ?. split; [|done]. intros Heq. by subst.
Qed.

(** What a click on a button with its icon does to an element with its
    content. *)
Lemma onButtonClick_toggles (button : nat) (e : Element) (c : Content)
    (b : Button) (cls : list string) :
  collapseContent e = Some c →
  buttons e !! button = Some b →
  icon b = Some cls →
  ∃ e' c' b' cls',
    onButtonClick offsetHeight button e = Normal () e'
    ∧ collapseContent e' = Some c'
    ∧ expanded c' = negb (expanded c)
    ∧ contains (contentClasses c') "expanded" = expanded c'
    ∧ (expanded c' = true → contains (contentClasses c') "hide" = false)
    ∧ buttons e' !! button = Some b'
    ∧ icon b' = Some cls'
    ∧ contains cls' "emby-collapse-expandIconExpanded" = expanded c'
    ∧ timers e' = timers e ++ [if expanded c' then AfterShow else AfterHide]
    ∧ classList e' = classList e
    ∧ length (buttons e') = length (buttons e).
Proof.
  intros Hc Hb Hi.
  unfold onButtonClick, slideUpToHide, slideDownToShow, onIcon, onContent,
    setTimeout. eff. rewrite Hc. simpl.
  destruct (expanded c) eqn:Hx; simpl; rewrite Hb; simpl; rewrite Hi;
    (eexists _, _, _, _; split; [reflexivity|]);
    (split; [simpl; rewrite Hc; reflexivity|]);
    (split; [reflexivity|]); simpl.
  - split; [apply contains_remove|]. split; [discriminate|].
    split; [rewrite list_lookup_alter_eq, Hb; reflexivity|].
    split; [simpl; rewrite Hi; reflexivity|].
    split; [apply contains_remove|]. split; [reflexivity|].
    split; [reflexivity|]. apply length_alter.
  - split; [apply contains_add|]. split.
    { intros _. rewrite contains_add_other by discriminate.
      apply contains_remove. }
    split; [rewrite list_lookup_alter_eq, Hb; reflexivity|].
    split; [simpl; rewrite Hi; reflexivity|].
    split; [apply contains_add|]. split; [reflexivity|].
    split; [reflexivity|]. apply length_alter.
Qed.

(** What a timer of the animations does to an element with its content. *)
Lemma onTimeout_hides (t : Timer) (e : Element)
    (c : Content) :
  collapseContent e = Some c →
  ∃ e' c',
    onTimeout t e = Normal () e'
    ∧ collapseContent e' = Some c'
    ∧ contains (contentClasses c') "hide"
      = negb (contains (contentClasses c') "expanded")
    ∧ contains (contentClasses c') "expanded"
      = contains (contentClasses c) "expanded"
    ∧ expanded c' = expanded c
    ∧ buttons e' = buttons e
    ∧ classList e' = classList e.
Proof.
  intros Hc. unfold onTimeout, onContent. eff.
  destruct t; simpl; (eexists _, _; split; [reflexivity|]); simpl;
    rewrite Hc; simpl; (split; [reflexivity|]);
    destruct (contains (contentClasses c) "expanded") eqn:Hx; simpl;
    rewrite ?contains_remove, ?contains_add,
      ?(contains_remove_other "hide" "expanded"),
      ?(contains_add_other "hide" "expanded") by discriminate;
    rewrite Hx; repeat split.
Qed.


(** X20.  When a timer of the animations fires, the content carries the
    class hide exactly when it does not carry the class expanded; the
    class expanded and the property [expanded] are as before. *)
Theorem timeout_hides_unless_expanded (t : Timer) (e : Element)
    (c : Content) :
  collapseContent e = Some c →
  ∃ e' c',
    onTimeout t e = Normal () e'
    ∧ collapseContent e' = Some c'
    ∧ contains (contentClasses c') "hide"
      = negb (contains (contentClasses c') "expanded")
    ∧ contains (contentClasses c') "expanded"
      = contains (contentClasses c) "expanded"
    ∧ expanded c' = expanded c
    ∧ buttons e' = buttons e
    ∧ classList e' = classList e.
Proof. apply onTimeout_hides. Qed.


(** X22.  The first attachment of an element that is not marked, does
    not ask to be expanded and has a title without markup characters (or
    no title): the callback completes; the element is marked with the
    class emby-collapse; its content, if it has one, carries the class
    hide; a toggle button with the title of the element, or null without
    one, and with the click listener is its first button, before those it
    had; the attributes and the timers are as before. *)
Theorem attachedCallback_first (e : Element) :
  contains (classList e) "emby-collapse" = false →
  dataExpanded e ≠ Some "true" →
  plainText (default "null" (title e)) = true →
  ∃ e',
    attachedCallback offsetHeight e = Normal () e'
    ∧ contains (classList e') "emby-collapse" = true
    ∧ collapseContent e'
      = set_contentClasses (add "hide") <$> collapseContent e
    ∧ (∀ c', collapseContent e' = Some c' →
             contains (contentClasses c') "hide" = true)
    ∧ buttons e'
      = Build_Button (markup (toggleButton (default "null" (title e))))
          (icon (toggleButton (default "null" (title e)))) true
        :: buttons e
    ∧ title e' = title e
    ∧ dataExpanded e' = dataExpanded e
    ∧ timers e' = timers e.
Proof.
  intros Hm Hd _. unfold attachedCallback, onContent. eff. rewrite Hm. simpl.
  rewrite bool_decide_eq_false_2 by done.
  eexists. split; [reflexivity|]. simpl. split; [apply contains_add|].
  split; [reflexivity|]. split; [|done].
  intros c'. destruct (collapseContent e) as [c|]; [|discriminate].
  simpl. intros [= <-]. apply contains_add.
Qed.

(** X23.  The first attachment of an element that asks to be expanded,
    with the attribute data-expanded set to true, and whose title has no
    markup characters (or that has no title).  With a content that is
    not expanded yet, the callback completes and leaves the content
    expanded: the property is true, the class expanded is set and the
    class hide is not, and the timer of the animation is set.  Without a
    content the callback throws, with the element marked and the button
    inserted. *)
Theorem attachedCallback_expanded (e : Element) :
  contains (classList e) "emby-collapse" = false →
  dataExpanded e = Some "true" →
  plainText (default "null" (title e)) = true →
  (∀ c, collapseContent e = Some c → expanded c = false →
     ∃ e' c',
       attachedCallback offsetHeight e = Normal () e'
       ∧ collapseContent e' = Some c'
       ∧ expanded c' = true
       ∧ contains (contentClasses c') "expanded" = true
       ∧ contains (contentClasses c') "hide" = false
       ∧ timers e' = timers e ++ [AfterShow]
       ∧ length (buttons e') = S (length (buttons e)))
  ∧ (collapseContent e = None →
     ∃ e',
       attachedCallback offsetHeight e = Throw e'
       ∧ contains (classList e') "emby-collapse" = true
       ∧ length (buttons e') = S (length (buttons e))
       ∧ timers e' = timers e).
Proof.
  intros Hm Hd _. split.
  - intros c Hc Hx.
    set (e1 := set_buttons
                 (alter (λ b, Build_Button (markup b) (icon b) true) 0%nat)
                 (set_buttons (λ bs, toggleButton (default "null" (title e)) :: bs)
                    (set_collapseContent (fmap (set_contentClasses (add "hide")))
                       (set_classList (add "emby-collapse") e)))).
    assert (attachedCallback offsetHeight e = onButtonClick offsetHeight 0 e1)
      as ->.
    { unfold attachedCallback, onContent. eff. rewrite Hm. simpl.
      by rewrite Hd, bool_decide_eq_true_2. }
    destruct (onButtonClick_toggles 0 e1 (set_contentClasses (add "hide") c)
                (Build_Button (markup (toggleButton (default "null" (title e))))
                   (icon (toggleButton (default "null" (title e)))) true)
                ["material-icons"; "emby-collapse-expandIcon"; "expand_more"])
      as (e' & c' & b' & cls' & Hrun & Hc' & Hx' & Hcx & Hh & _ & _ & _ & Ht & _ & Hlen).
    { subst e1. simpl. by rewrite Hc. }
    { reflexivity. }
    { reflexivity. }
    simpl in Hx'. rewrite Hx in Hx'. simpl in Hx'.
    exists e', c'. split; [exact Hrun|]. split; [exact Hc'|].
    split; [exact Hx'|]. split; [by rewrite Hcx|]. split; [by apply Hh|].
    split; [by rewrite Ht, Hx'|]. rewrite Hlen. reflexivity.
  - intros Hc. unfold attachedCallback, onContent, onButtonClick. eff.
    rewrite Hm. simpl. rewrite Hd, bool_decide_eq_true_2 by done.
    simpl. rewrite Hc. simpl. eexists. split; [reflexivity|]. simpl.
    split; [apply contains_add|]. done.
Qed.

End Collapsing.



Lemma timeout_hides_unless_expanded_witness :
  let c := {| EmbyCollapse.contentClasses := ["collapseContent"];
              EmbyCollapse.expanded := false;
              EmbyCollapse.height := "0" |} in
  let e := {| EmbyCollapse.classList := ["emby-collapse"];
              EmbyCollapse.title := None;
              EmbyCollapse.dataExpanded := None;
              EmbyCollapse.buttons := [];
              EmbyCollapse.collapseContent := Some c;
              EmbyCollapse.timers := [] |} in
  ∃ e' c',
    EmbyCollapse.onTimeout EmbyCollapse.AfterHide e = Eff.Normal () e'
    ∧ EmbyCollapse.collapseContent e' = Some c'
    ∧ EmbyCollapse.contains (EmbyCollapse.contentClasses c') "hide" = true.
Proof.
  intros c e.
  destruct (timeout_hides_unless_expanded EmbyCollapse.AfterHide e c eq_refl)
    as (e' & c' & Hrun & Hc & Hh & Hx & _).
  exists e', c'. split; [exact Hrun|]. split; [exact Hc|].
  rewrite Hh, Hx. reflexivity.
Defined.

Lemma attachedCallback_first_witness :
  let e := {| EmbyCollapse.classList := ["filterPanel"];
              EmbyCollapse.title := None;
              EmbyCollapse.dataExpanded := Some "false";
              EmbyCollapse.buttons := [];
              EmbyCollapse.collapseContent :=
                Some {| EmbyCollapse.contentClasses := ["collapseContent"];
                        EmbyCollapse.expanded := false;
                        EmbyCollapse.height := EmptyString |};
              EmbyCollapse.timers := [] |} in
  ∃ e',
    EmbyCollapse.attachedCallback (λ _, 120) e = Eff.Normal () e'
    ∧ length (EmbyCollapse.buttons e') = 1%nat.
Proof.
  intros e.
  destruct (attachedCallback_first (λ _, 120) e) as (e' & Hrun & _ & _ & _ & Hb & _).
  - reflexivity.
  - discriminate.
  - reflexivity.
  - exists e'. split; [exact Hrun|]. by rewrite Hb.
Defined.

Lemma attachedCallback_expanded_witness :
  let c := {| EmbyCollapse.contentClasses := ["collapseContent"];
              EmbyCollapse.expanded := false;
              EmbyCollapse.height := EmptyString |} in
  let e := {| EmbyCollapse.classList := [];
              EmbyCollapse.title := Some "Filters";
              EmbyCollapse.dataExpanded := Some "true";
              EmbyCollapse.buttons := [];
              EmbyCollapse.collapseContent := Some c;
              EmbyCollapse.timers := [] |} in
  let e0 := EmbyCollapse.set_collapseContent (λ _, None) e in
  (∃ e' c',
     EmbyCollapse.attachedCallback (λ _, 120) e = Eff.Normal () e'
     ∧ EmbyCollapse.collapseContent e' = Some c'
     ∧ EmbyCollapse.expanded c' = true)
  ∧ (∃ e', EmbyCollapse.attachedCallback (λ _, 120) e0 = Eff.Throw e').
Proof.
  intros c e e0. split.
  - destruct (proj1 (attachedCallback_expanded (λ _, 120) e eq_refl eq_refl
                       eq_refl)
                c eq_refl eq_refl)
      as (e' & c' & Hrun & Hc & Hx & _).
    exists e', c'. split; [exact Hrun|]. split; [exact Hc|exact Hx].
  - destruct (proj2 (attachedCallback_expanded (λ _, 120) e0 eq_refl eq_refl
                       eq_refl)
                eq_refl)
      as (e' & Hrun & _).
    by exists e'.
Defined.
